(** * create_context.py: the consolidator, embedded and verified

    The program walks the directory tree below the current working
    directory, drops build artefacts, and glues the text of every
    remaining file into one report.  This development embeds the Python
    source as Rocq functions over an explicit file-system tree and proves
    the properties the specification lists.

    Python [str] values are modelled as [string]; lists as [list]; the
    sets of the two filters as lists (only membership and [any] are
    used, so iteration order is irrelevant). *)

From Stdlib Require Import String Ascii List Bool Arith Lia DecimalString.
From Stdlib Require Import Sorted Permutation.
From Stdlib Require OrderedTypeEx.
Import ListNotations.
Open Scope list_scope.
Open Scope string_scope.

(** ** Python string primitives used by the program *)

(** [x in xs] for a list or set of strings. *)
Definition str_in (x : string) (xs : list string) : bool :=
  existsb (String.eqb x) xs.

(** [s.endswith(suffix)]: the last [len(suffix)] characters of [s] are
    [suffix]. *)
Definition endswith (s suffix : string) : bool :=
  let n := String.length s in
  let m := String.length suffix in
  Nat.leb m n && String.eqb (substring (n - m) m s) suffix.

(** [s.startswith(prefix)]. *)
Fixpoint startswith (s pre : string) {struct pre} : bool :=
  match pre, s with
  | EmptyString, _ => true
  | String _ _, EmptyString => false
  | String a pre', String b s' => Ascii.eqb a b && startswith s' pre'
  end.

(** [s.split(sep)] for a one-character separator: every occurrence
    cuts, and the empty string splits into one empty piece. *)
Fixpoint split (sep : ascii) (s : string) : list string :=
  match s with
  | EmptyString => [EmptyString]
  | String c rest =>
      if Ascii.eqb c sep then EmptyString :: split sep rest
      else match split sep rest with
           | [] => [String c EmptyString]
           | w :: ws => String c w :: ws
           end
  end.

(** [c * n] for a one-character string. *)
Fixpoint str_repeat (c : ascii) (n : nat) : string :=
  match n with
  | O => EmptyString
  | S k => String c (str_repeat c k)
  end.

(** [sub in s] on strings: [sub] occurs as a contiguous substring. *)
Fixpoint contains (sub s : string) : bool :=
  if startswith s sub then true
  else match s with
       | EmptyString => false
       | String _ rest => contains sub rest
       end.

(** [sorted(xs)] on strings.  Python compares [str] values
    lexicographically by character code; a list of strings has exactly
    one sorted arrangement, so the stable insertion sort below returns
    what Timsort returns. *)
Fixpoint insert_sorted (x : string) (xs : list string) : list string :=
  match xs with
  | [] => [x]
  | y :: ys => if String.ltb x y then x :: y :: ys else y :: insert_sorted x ys
  end.

Definition sorted (xs : list string) : list string :=
  fold_left (fun acc x => insert_sorted x acc) xs [].

(** ** posixpath *)

Definition sep_char : ascii := "/"%char.
Definition sep : string := "/".
Definition curdir : string := ".".
Definition pardir : string := "..".

Definition isabs (s : string) : bool := startswith s sep.

(** [os.path.join(a, b)]. *)
Definition join (a b : string) : string :=
  if startswith b sep then b
  else if String.eqb a "" || endswith a sep then a ++ b
  else a ++ sep ++ b.

(** The loop of [normpath] over the components, [new_comps] being the
    accumulator; [initial_slashes] is 0, 1 or 2. *)
Definition norm_step (initial_slashes : nat) (new_comps : list string)
           (comp : string) : list string :=
  if String.eqb comp "" || String.eqb comp curdir then new_comps
  else if negb (String.eqb comp pardir)
          || (Nat.eqb initial_slashes 0 && Nat.eqb (List.length new_comps) 0)
          || (negb (Nat.eqb (List.length new_comps) 0)
              && String.eqb (last new_comps "") pardir)
       then (new_comps ++ [comp])%list
       else removelast new_comps.

Definition normpath (path : string) : string :=
  if String.eqb path "" then curdir
  else
    let initial_slashes :=
      if startswith path sep then
        if startswith path (sep ++ sep) && negb (startswith path (sep ++ sep ++ sep))
        then 2 else 1
      else 0 in
    let comps := fold_left (norm_step initial_slashes) (split sep_char path) [] in
    let path' := str_repeat sep_char initial_slashes ++ String.concat sep comps in
    if String.eqb path' "" then curdir else path'.

(** [abspath]; [cwd] is what [os.getcwd()] returns. *)
Definition abspath (cwd path : string) : string :=
  normpath (if isabs path then path else join cwd path).

(** [len(commonprefix([xs, ys]))] on two lists of components. *)
Fixpoint common_len (xs ys : list string) : nat :=
  match xs, ys with
  | x :: xs', y :: ys' => if String.eqb x y then S (common_len xs' ys') else 0
  | _, _ => 0
  end.

(** [join] applied to an unpacked, non-empty list of parts. *)
Definition join_all (parts : list string) : string :=
  match parts with
  | [] => ""
  | a :: p => fold_left join p a
  end.

Definition nonempty (s : string) : bool := negb (String.eqb s "").

(** [os.path.relpath(path, start)].  The library raises [ValueError] on
    an empty [path]; [collect_code] passes [join root file], which is
    not empty when the start path is not (lemma [opened_path_nonempty]
    below), so that branch is not reached and is left out. *)
Definition relpath (cwd path start : string) : string :=
  let start_list := filter nonempty (split sep_char (abspath cwd start)) in
  let path_list := filter nonempty (split sep_char (abspath cwd path)) in
  let i := common_len start_list path_list in
  let rel_list := (repeat pardir (List.length start_list - i) ++ skipn i path_list)%list in
  match rel_list with
  | [] => curdir
  | _ => join_all rel_list
  end.

(** ** The two filters *)

Definition skip_dirs : list string :=
  ["build"; ".gradle"; ".idea"; "out"; "target"; "bin"].

Definition should_skip_directory (dir_name : string) : bool :=
  str_in dir_name skip_dirs.

Definition skip_extensions : list string :=
  [".class"; ".jar"; ".war"; ".ear"; ".zip"; ".tar"; ".gz";
   ".pyc"; ".pyo"; ".pyd"; ".dll"; ".so"; ".dylib";
   ".log"; ".tmp"; ".swp"; ".DS_Store"].

Definition skip_files : list string := ["Cargo.lock"].

Definition should_skip_file (file_name : string) : bool :=
  existsb (fun ext => endswith file_name ext) skip_extensions
  || str_in file_name skip_files.

(** ** The file system the program runs against

    A file answers [open(..., 'r', encoding='utf-8')] followed by
    [read()] either with its text or with an exception, whose [str] is
    the message; how the answer comes from the bytes on the disk is
    spelled out under "Files as bytes" below.  A directory lists its entries in the order
    [os.scandir] delivers them; [Unlistable] is a directory on which
    [os.scandir] raises [OSError] (no read permission, vanished).
    Symbolic links are not modelled. *)

Inductive read_result : Type :=
| ReadOk (content : string)
| ReadError (message : string).

#[warnings="-register-all"]
Inductive node : Type :=
| File (r : read_result)
| Dir (entries : list (string * node))
| Unlistable.

Definition is_dir (n : node) : bool :=
  match n with
  | File _ => false
  | Dir _ | Unlistable => true
  end.

(** The [dirs] and [nondirs] lists [os.walk] builds from one scan. *)
Definition dir_names (entries : list (string * node)) : list string :=
  map fst (filter (fun e => is_dir (snd e)) entries).

Definition file_names (entries : list (string * node)) : list string :=
  map fst (filter (fun e => negb (is_dir (snd e))) entries).

(** The entry a name resolves to inside a directory. *)
Fixpoint lookup (name : string) (entries : list (string * node)) : option node :=
  match entries with
  | [] => None
  | (n, child) :: rest => if String.eqb n name then Some child else lookup name rest
  end.

(** [open(file_path).read()] for [file_path = join(root, file)], where
    [here] lists the directory at [root]. *)
Definition open_read (here : list (string * node)) (file_path file : string)
  : read_result :=
  match lookup file here with
  | Some (File r) => r
  | Some _ => ReadError ("[Errno 21] Is a directory: '" ++ file_path ++ "'")
  | None => ReadError ("[Errno 2] No such file or directory: '" ++ file_path ++ "'")
  end.

(** ** os.walk

    [os.walk(top)] is a generator: it yields [(top, dirs, files)], the
    consumer may rewrite [dirs] in place, and on resumption the walk
    enters exactly the names left in [dirs].  The consumer is the [body]
    below: it receives the triple (and the listing, to open files with)
    together with its own state, and returns the rewritten [dirs] and its
    new state.  An [OSError] from [os.scandir] ends that sub-walk
    silently (the default [onerror=None]). *)

Section Walk.
Context {St : Type}.
Variable body :
  string -> list (string * node) -> list string -> list string -> St ->
  list string * St.

Fixpoint os_walk (top : string) (n : node) (st : St) {struct n} : St :=
  match n with
  | Dir entries =>
      let '(dirs, st') :=
        body top entries (dir_names entries) (file_names entries) st in
      fold_left
        (fun s dirname =>
           (fix enter (es : list (string * node)) : St :=
              match es with
              | [] => s
              | (name, child) :: es' =>
                  if String.eqb name dirname
                  then os_walk (join top dirname) child s
                  else enter es'
              end) entries)
        dirs st'
  | File _ | Unlistable => st
  end.

End Walk.

(** ** datetime *)

Record datetime : Type := {
  year : nat; month : nat; day : nat;
  hour : nat; minute : nat; second : nat; microsecond : nat
}.

(** The decimal digits of [n], as [%d] prints them. *)
Definition decimal (n : nat) : string :=
  NilEmpty.string_of_uint (Nat.to_uint n).

(** ['%0wd' % n]. *)
Definition zero_padded (w n : nat) : string :=
  let d := decimal n in
  str_repeat "0"%char (w - String.length d) ++ d.

(** [str(dt)], that is [dt.isoformat(sep=' ')] for a naive datetime. *)
Definition str_datetime (dt : datetime) : string :=
  zero_padded 4 (year dt) ++ "-" ++ zero_padded 2 (month dt) ++ "-"
  ++ zero_padded 2 (day dt) ++ " "
  ++ zero_padded 2 (hour dt) ++ ":" ++ zero_padded 2 (minute dt) ++ ":"
  ++ zero_padded 2 (second dt)
  ++ (if Nat.eqb (microsecond dt) 0 then ""
      else "." ++ zero_padded 6 (microsecond dt)).

(** ** collect_code *)

Definition nl : string := String "010"%char "".

Definition rule : string := str_repeat "="%char 80.

(** The list scanned by the path-level check. *)
Definition path_exclusions : list string :=
  [".git"; "build"; ".gradle"; ".idea"; "vendor"].

Definition in_excluded_path (root : string) : bool :=
  existsb (fun skip_dir => str_in skip_dir (split sep_char root)) path_exclusions.

(** The three segments appended before the walk. *)
Definition preamble (now : datetime) : list string :=
  [ "Code consolidated on: " ++ str_datetime now ++ nl;
    "Project structure and contents:" ++ nl;
    rule ++ nl ++ nl ].

(** One iteration of [for file in sorted(files)]. *)
Definition visit_file (cwd start_path root : string)
           (here : list (string * node)) (output : list string)
           (file : string) : list string :=
  if should_skip_file file then output
  else
    let file_path := join root file in
    let relative_path := relpath cwd file_path start_path in
    match open_read here file_path file with
    | ReadOk content =>
        app output [ "File: " ++ relative_path; rule; content;
                     nl ++ rule ++ nl ++ nl ]
    | ReadError e =>
        app output [ "Error reading " ++ relative_path ++ ": " ++ e ++ nl ]
    end.

(** One iteration of [for root, dirs, files in os.walk(start_path)]:
    the rewritten [dirs] and the grown [output]. *)
Definition walk_body (cwd start_path root : string)
           (here : list (string * node)) (dirs files : list string)
           (output : list string) : list string * list string :=
  let dirs' := filter (fun d => negb (should_skip_directory d)) dirs in
  if in_excluded_path root then (dirs', output)
  else (dirs', fold_left (visit_file cwd start_path root here) (sorted files) output).

(** The report buffer at [return], before the final join. *)
Definition collect_segments (cwd : string) (fs : node) (now : datetime)
           (start_path : string) : list string :=
  os_walk (walk_body cwd start_path) start_path fs (preamble now).

(** [collect_code(start_path)], run with the directory [fs] at
    [start_path], the clock reading [now] and [os.getcwd()] being
    [cwd] (consulted by [relpath] when [start_path] is relative). *)
Definition collect_code (cwd : string) (fs : node) (now : datetime)
           (start_path : string) : string :=
  String.concat nl (collect_segments cwd fs now start_path).

(** ** main *)

(** An exception: its class and its message. *)
Inductive exn : Type :=
| Exception (class message : string).

Inductive result (A : Type) : Type :=
| Returned (a : A)
| Raised (e : exn).
Arguments Returned {A} a.
Arguments Raised {A} e.

(** What a run meets: the answer of [os.getcwd()], the clock, the
    directory at the working directory, and whether opening or writing
    the output file raises.  The closing [print] is taken to succeed: a
    standard output that is closed or full is outside the model. *)
Record world : Type := {
  getcwd : result string;
  clock : datetime;
  tree : node;
  write_error : option exn
}.

Definition output_file : string := "project_code_consolidated.txt".

(** How the process ends: [Completed] carries the file written and the
    text printed; [Uncaught] the exception that reached the top level. *)
Inductive outcome : Type :=
| Completed (written : string * string) (stdout : string)
| Uncaught (e : exn).

Definition main (w : world) : outcome :=
  match getcwd w with
  | Raised e => Uncaught e
  | Returned current_dir =>
      let output := collect_code current_dir (tree w) (clock w) current_dir in
      match write_error w with
      | Some e => Uncaught e
      | None =>
          Completed (output_file, output)
                    ("Code has been consolidated into " ++ output_file ++ nl)
      end
  end.

(** The interpreter exits with 1 on an uncaught exception. *)
Definition exit_status (o : outcome) : nat :=
  match o with
  | Completed _ _ => 0
  | Uncaught _ => 1
  end.

(** ** The walk laid out as data

    The definitions below restate the traversal as lists, so that the
    properties can speak about the directories the loop receives and the
    files it opens.  [collect_segments_unfold] proves that they describe
    the buffer [collect_code] builds. *)

(** One triple handed to the loop: the [root] string, the names of the
    directories entered below the start to get there, and the listing
    of the directory. *)
Record visit : Type := {
  v_root : string;
  v_chain : list string;
  v_here : list (string * node)
}.

Definition keep_dir (d : string) : bool := negb (should_skip_directory d).
Definition keep_file (f : string) : bool := negb (should_skip_file f).

(** The triples [os.walk] yields when the loop prunes [dirs] with
    [should_skip_directory]. *)
Fixpoint walk_yields (top : string) (chain : list string) (n : node)
  {struct n} : list visit :=
  match n with
  | Dir entries =>
      {| v_root := top; v_chain := chain; v_here := entries |}
      :: flat_map
           (fun dirname =>
              (fix enter (es : list (string * node)) : list visit :=
                 match es with
                 | [] => []
                 | (name, child) :: es' =>
                     if String.eqb name dirname
                     then walk_yields (join top dirname)
                                      (app chain [dirname]) child
                     else enter es'
                 end) entries)
           (filter keep_dir (dir_names entries))
  | File _ | Unlistable => []
  end.

(** A file the loop opens. *)
Record opened : Type := {
  o_root : string;
  o_chain : list string;
  o_here : list (string * node);
  o_file : string
}.

Definition o_path (o : opened) : string := join (o_root o) (o_file o).

Definition o_read (o : opened) : read_result :=
  open_read (o_here o) (o_path o) (o_file o).

Definition o_relative (cwd start_path : string) (o : opened) : string :=
  relpath cwd (o_path o) start_path.

(** The files opened while the loop handles one triple, in order. *)
Definition opened_in (v : visit) : list opened :=
  if in_excluded_path (v_root v) then []
  else map (fun file => {| o_root := v_root v; o_chain := v_chain v;
                           o_here := v_here v; o_file := file |})
           (filter keep_file (sorted (file_names (v_here v)))).

(** All files opened by a run, in order. *)
Definition opened_files (start_path : string) (fs : node) : list opened :=
  flat_map opened_in (walk_yields start_path [] fs).

(** A block, and an error line. *)
Definition block (relative_path content : string) : list string :=
  [ "File: " ++ relative_path; rule; content; nl ++ rule ++ nl ++ nl ].

Definition error_line (relative_path message : string) : list string :=
  [ "Error reading " ++ relative_path ++ ": " ++ message ++ nl ].

(** What one opened file adds to the buffer. *)
Definition segments_of (cwd start_path : string) (o : opened) : list string :=
  match o_read o with
  | ReadOk content => block (o_relative cwd start_path o) content
  | ReadError e => error_line (o_relative cwd start_path o) e
  end.

(** The node reached from [n] by entering the names of [chain] in turn. *)
Fixpoint resolve (n : node) (chain : list string) : option node :=
  match chain with
  | [] => Some n
  | d :: rest =>
      match n with
      | Dir entries =>
          match lookup d entries with
          | Some child => resolve child rest
          | None => None
          end
      | File _ | Unlistable => None
      end
  end.

(** The string [os.walk] builds for the directory reached by [chain]. *)
Definition path_of (start_path : string) (chain : list string) : string :=
  fold_left join chain start_path.

(** Names a POSIX directory can hold: not empty, no slash, and neither
    of the two dot entries, which [os.scandir] never reports. *)
Fixpoint mentions (c : ascii) (s : string) : bool :=
  match s with
  | EmptyString => false
  | String a rest => Ascii.eqb a c || mentions c rest
  end.

Definition has_sep (s : string) : bool := mentions sep_char s.

Definition valid_name (s : string) : bool :=
  nonempty s && negb (has_sep s)
  && negb (String.eqb s curdir) && negb (String.eqb s pardir).

Fixpoint valid_tree (n : node) : bool :=
  match n with
  | Dir entries =>
      (fix all (es : list (string * node)) : bool :=
         match es with
         | [] => true
         | (name, child) :: es' => valid_name name && valid_tree child && all es'
         end) entries
  | File _ | Unlistable => true
  end.

(** The components [normpath] keeps for an absolute path. *)
Definition abs_components (path : string) : list string :=
  fold_left (norm_step 1) (split sep_char path) [].

(** The same tree with the read outcome of every file rewritten by
    [f], which is told where the file sits (the names from the root
    down to the file). *)
Fixpoint rewrite_reads (f : list string -> read_result -> read_result)
         (place : list string) (n : node) {struct n} : node :=
  match n with
  | File r => File (f place r)
  | Dir entries =>
      Dir ((fix go (es : list (string * node)) : list (string * node) :=
              match es with
              | [] => []
              | (name, child) :: es' =>
                  (name, rewrite_reads f (app place [name]) child) :: go es'
              end) entries)
  | Unlistable => Unlistable
  end.

Definition rewrite_listing (f : list string -> read_result -> read_result)
           (chain : list string) (here : list (string * node))
  : list (string * node) :=
  map (fun e => (fst e, rewrite_reads f (app chain [fst e]) (snd e))) here.

Definition rewrite_visit (f : list string -> read_result -> read_result)
           (v : visit) : visit :=
  {| v_root := v_root v; v_chain := v_chain v;
     v_here := rewrite_listing f (v_chain v) (v_here v) |}.

Definition rewrite_opened (f : list string -> read_result -> read_result)
           (o : opened) : opened :=
  {| o_root := o_root o; o_chain := o_chain o;
     o_here := rewrite_listing f (o_chain o) (o_here o);
     o_file := o_file o |}.

(** Characters of a timestamp, and the test that a string uses no
    others. *)
Definition timestamp_alphabet : string := "0123456789-: .".

Fixpoint only_uses (alphabet s : string) : bool :=
  match s with
  | EmptyString => true
  | String c rest => mentions c alphabet && only_uses alphabet rest
  end.

(** No character of [q] belongs to [alphabet]. *)
Fixpoint avoids (alphabet q : string) : bool :=
  match q with
  | EmptyString => true
  | String c rest => negb (mentions c alphabet) && avoids alphabet rest
  end.

(** The text after the first line of a report. *)
Fixpoint after_first_line (s : string) : string :=
  match s with
  | EmptyString => EmptyString
  | String c rest => if Ascii.eqb c "010"%char then rest else after_first_line rest
  end.

Definition str_le (a b : string) : Prop := String.leb a b = true.

(** The scratch tree of the end-to-end example, and a clock reading. *)
Definition example_listing : list (string * node) :=
  [ ("src", Dir [ ("main.txt", File (ReadOk "hello")) ]);
    ("build", Dir [ ("ignored.txt", File (ReadOk "x")) ]);
    ("Cargo.lock", File (ReadOk "y")) ].

Definition example_tree : node := Dir example_listing.

Definition example_clock : datetime :=
  {| year := 2024; month := 3; day := 7;
     hour := 9; minute := 5; second := 0; microsecond := 1234 |}.

(** The three files of the ordering example, listed out of order. *)
Definition abz_listing : list (string * node) :=
  [ ("z.txt", File (ReadOk "Z"));
    ("a.txt", File (ReadOk "A"));
    ("b.txt", File (ReadOk "B")) ].

(** A run whose working directory cannot be listed, and one whose
    output file cannot be written. *)
Definition unlistable_world : world :=
  {| getcwd := Returned "/home/u/proj"; clock := example_clock;
     tree := Unlistable; write_error := None |}.

Definition readonly_world : world :=
  {| getcwd := Returned "/home/u/proj"; clock := example_clock;
     tree := example_tree;
     write_error :=
       Some (Exception "PermissionError"
              "[Errno 13] Permission denied: 'project_code_consolidated.txt'") |}.

(** A checkout with version-control metadata and a vendored
    dependency beside one source file. *)
Definition vcs_tree : node :=
  Dir [ (".git", Dir [ ("config", File (ReadOk "[core]"));
                       ("hooks", Dir [ ("pre-commit", File (ReadOk "#!/bin/sh")) ]) ]);
        ("vendor", Dir [ ("lib.txt", File (ReadOk "v")) ]);
        ("main.txt", File (ReadOk "m")) ].

(** A second run: the working directory already holds a report. *)
Definition rerun_world : world :=
  {| getcwd := Returned "/home/u/proj"; clock := example_clock;
     tree := Dir [ ("notes.txt", File (ReadOk "n"));
                   (output_file, File (ReadOk "old report")) ];
     write_error := None |}.

(** A tree that holds directories only, however nested. *)
Fixpoint only_directories (n : node) : bool :=
  match n with
  | File _ => false
  | Unlistable => true
  | Dir entries =>
      (fix all (es : list (string * node)) : bool :=
         match es with
         | [] => true
         | (_, child) :: es' => only_directories child && all es'
         end) entries
  end.

(** The same tree with every directory that cannot be listed replaced
    by an empty one. *)
Fixpoint hush (n : node) : node :=
  match n with
  | File r => File r
  | Unlistable => Dir []
  | Dir entries =>
      Dir ((fix go (es : list (string * node)) : list (string * node) :=
              match es with
              | [] => []
              | (name, child) :: es' => (name, hush child) :: go es'
              end) entries)
  end.

Definition hush_listing (here : list (string * node)) : list (string * node) :=
  map (fun e => (fst e, hush (snd e))) here.

Definition hush_opened (o : opened) : opened :=
  {| o_root := o_root o; o_chain := o_chain o;
     o_here := hush_listing (o_here o); o_file := o_file o |}.

(** No directory of the tree lists a name twice. *)
Fixpoint unique (names : list string) : bool :=
  match names with
  | [] => true
  | x :: rest => negb (str_in x rest) && unique rest
  end.

Fixpoint distinct_names (n : node) : bool :=
  match n with
  | Dir entries =>
      unique (map fst entries)
      && (fix all (es : list (string * node)) : bool :=
            match es with
            | [] => true
            | (_, child) :: es' => distinct_names child && all es'
            end) entries
  | File _ | Unlistable => true
  end.

(** What one opened file adds to the count of segments. *)
Definition weight (o : opened) : nat :=
  match o_read o with
  | ReadOk _ => 4
  | ReadError _ => 1
  end.

(** A tree of empty and unlistable directories, and a tree with an
    unlistable directory beside a file. *)
Definition hollow_tree : node :=
  Dir [ ("docs", Dir [ ("img", Dir []) ]); ("locked", Unlistable) ].

Definition locked_tree : node :=
  Dir [ ("locked", Unlistable); ("main.txt", File (ReadOk "m")) ].

(** ** Files as bytes

    [open(file_path, 'r', encoding='utf-8')] wraps the file in a
    [TextIOWrapper] with the default [newline=None], and [read()] hands
    all bytes of the file to the strict UTF-8 decoder and then to the
    universal-newlines translation.  The definitions below derive the
    [read_result] of a file from what the disk holds.  A Python [str] is
    represented by its UTF-8 encoding, so decoding a well-formed byte
    string returns the same bytes; carriage return and line feed are
    single bytes that occur in no multi-byte sequence. *)

Definition carriage_return : ascii := "013"%char.
Definition line_feed : ascii := "010"%char.

(** The translation of [newline=None] on input: every "\r\n" and every
    remaining "\r" becomes "\n". *)
Fixpoint universal_newlines (s : string) : string :=
  match s with
  | EmptyString => EmptyString
  | String c rest =>
      if Ascii.eqb c carriage_return then
        match rest with
        | String c' rest' =>
            if Ascii.eqb c' line_feed
            then String line_feed (universal_newlines rest')
            else String line_feed (universal_newlines rest)
        | EmptyString => String line_feed EmptyString
        end
      else String c (universal_newlines rest)
  end.

(** ['%02x' % n] for a byte. *)
Definition hex_digit (n : nat) : ascii :=
  nth n (list_ascii_of_string "0123456789abcdef") "0"%char.

Definition hex2 (n : nat) : string :=
  String (hex_digit (n / 16)) (String (hex_digit (n mod 16)) EmptyString).

(** [str(e)] for the [UnicodeDecodeError] on the bytes from [first] up
    to, not including, [last]; [lead] is the byte at [first]. *)
Definition decode_message (lead first last : nat) (reason : string) : string :=
  if Nat.eqb last (S first)
  then "'utf-8' codec can't decode byte 0x" ++ hex2 lead ++ " in position "
       ++ decimal first ++ ": " ++ reason
  else "'utf-8' codec can't decode bytes in position "
       ++ decimal first ++ "-" ++ decimal (last - 1) ++ ": " ++ reason.

(** A multi-byte sequence under way: its lead byte, where it began, how
    many of its bytes were taken, how many continuation bytes must
    follow the next one, and the range the next one must lie in. *)
Record pending : Type := {
  p_lead : nat; p_start : nat; p_seen : nat; p_more : nat;
  p_lo : nat; p_hi : nat
}.

(** The strict UTF-8 decoder as a scan over the bytes: [None] when the
    input is well formed, otherwise the message of the error raised at
    the first ill-formed sequence.  Lead bytes C2..DF take one
    continuation byte, E0..EF two, F0..F4 three; the first continuation
    byte is narrowed after E0, ED, F0 and F4 (no overlong forms, no
    surrogates, nothing above U+10FFFF). *)
Fixpoint utf8_scan (s : string) (pos : nat) (st : option pending)
  : option string :=
  match s with
  | EmptyString =>
      match st with
      | None => None
      | Some p => Some (decode_message (p_lead p) (p_start p) pos
                                       "unexpected end of data")
      end
  | String c rest =>
      let b := nat_of_ascii c in
      match st with
      | None =>
          let expect more lo hi :=
            utf8_scan rest (S pos)
              (Some {| p_lead := b; p_start := pos; p_seen := 1;
                       p_more := more; p_lo := lo; p_hi := hi |}) in
          if Nat.ltb b 128 then utf8_scan rest (S pos) None
          else if Nat.ltb b 194
          then Some (decode_message b pos (S pos) "invalid start byte")
          else if Nat.ltb b 224 then expect 0 128 191
          else if Nat.ltb b 240
          then expect 1 (if Nat.eqb b 224 then 160 else 128)
                        (if Nat.eqb b 237 then 159 else 191)
          else if Nat.ltb b 245
          then expect 2 (if Nat.eqb b 240 then 144 else 128)
                        (if Nat.eqb b 244 then 143 else 191)
          else Some (decode_message b pos (S pos) "invalid start byte")
      | Some p =>
          if Nat.leb (p_lo p) b && Nat.leb b (p_hi p) then
            match p_more p with
            | O => utf8_scan rest (S pos) None
            | S more =>
                utf8_scan rest (S pos)
                  (Some {| p_lead := p_lead p; p_start := p_start p;
                           p_seen := S (p_seen p); p_more := more;
                           p_lo := 128; p_hi := 191 |})
            end
          else Some (decode_message (p_lead p) (p_start p)
                                    (p_start p + p_seen p)
                                    "invalid continuation byte")
      end
  end.

Definition utf8_error (raw : string) : option string := utf8_scan raw 0 None.

(** What the disk holds for a file: its bytes, or the fact that
    [open] raises an [OSError] on it (no permission, a dangling link);
    [str(e)] of that error names the path given to [open], so the
    message is a function of it. *)
Inductive stored : Type :=
| Bytes (raw : string)
| Denied (message : string -> string).

#[warnings="-register-all"]
Inductive disk : Type :=
| DiskFile (s : stored)
| DiskDir (entries : list (string * disk))
| DiskUnlistable.

(** [open(file_path, 'r', encoding='utf-8')] and [f.read()]. *)
Definition read_text (file_path : string) (s : stored) : read_result :=
  match s with
  | Bytes raw =>
      match utf8_error raw with
      | None => ReadOk (universal_newlines raw)
      | Some message => ReadError message
      end
  | Denied message => ReadError (message file_path)
  end.

(** The tree a run meets when the directory at [top] holds [d]: every
    file answers with the outcome of reading it at the path the walk
    builds for it. *)
Fixpoint mount (top : string) (d : disk) {struct d} : node :=
  match d with
  | DiskFile s => File (read_text top s)
  | DiskDir entries =>
      Dir ((fix go (es : list (string * disk)) : list (string * node) :=
              match es with
              | [] => []
              | (name, child) :: es' =>
                  (name, mount (join top name) child) :: go es'
              end) entries)
  | DiskUnlistable => Unlistable
  end.

Definition mount_listing (top : string) (entries : list (string * disk))
  : list (string * node) :=
  map (fun e => (fst e, mount (join top (fst e)) (snd e))) entries.

Fixpoint disk_lookup (name : string) (entries : list (string * disk))
  : option disk :=
  match entries with
  | [] => None
  | (n, child) :: rest =>
      if String.eqb n name then Some child else disk_lookup name rest
  end.

(** What the disk holds at the end of [chain]. *)
Fixpoint disk_resolve (d : disk) (chain : list string) : option disk :=
  match chain with
  | [] => Some d
  | name :: rest =>
      match d with
      | DiskDir entries =>
          match disk_lookup name entries with
          | Some child => disk_resolve child rest
          | None => None
          end
      | DiskFile _ | DiskUnlistable => None
      end
  end.

(** No file of the tree refuses to be opened. *)
Fixpoint never_denied (d : disk) : bool :=
  match d with
  | DiskFile (Bytes _) => true
  | DiskFile (Denied _) => false
  | DiskUnlistable => true
  | DiskDir entries =>
      (fix all (es : list (string * disk)) : bool :=
         match es with
         | [] => true
         | (_, child) :: es' => never_denied child && all es'
         end) entries
  end.

(** A file with Windows line ends, a file that is not UTF-8 between two
    that are, and a file that may not be read. *)
Definition crlf_bytes : string :=
  String "a" (String carriage_return (String line_feed "b")).

Definition crlf_disk : disk :=
  DiskDir [ ("dos.txt", DiskFile (Bytes crlf_bytes)) ].

Definition flaky_disk : disk :=
  DiskDir [ ("a.txt", DiskFile (Bytes "A"));
            ("b.txt", DiskFile (Bytes (String "255" "")));
            ("c.txt", DiskFile (Bytes "C")) ].

Definition permission_denied (file_path : string) : string :=
  "[Errno 13] Permission denied: '" ++ file_path ++ "'".

Definition secret_disk : disk :=
  DiskDir [ ("main.txt", DiskFile (Bytes "m"));
            ("secret.txt", DiskFile (Denied permission_denied)) ].

(** * Properties *)

#[local] Arguments Ascii.eqb : simpl never.
#[local] Arguments String.eqb : simpl never.

(** ** Induction over trees *)

Lemma node_ind_nested (P : node -> Prop) :
  (forall r, P (File r)) ->
  P Unlistable ->
  (forall entries, Forall (fun e => P (snd e)) entries -> P (Dir entries)) ->
  forall n, P n.
Proof.
  intros HF HU HD.
  fix IH 1.
  intros [r | entries | ].
  - apply HF.
  - apply HD.
    induction entries as [| [name child] es IHes].
    + constructor.
    + constructor; [apply IH | exact IHes].
  - apply HU.
Qed.

(** ** The walk as a fold over looked-up children *)

Lemma fold_left_ext {A B : Type} (f g : A -> B -> A) (l : list B) (a : A) :
  (forall x y, f x y = g x y) -> fold_left f l a = fold_left g l a.
Proof.
  intros Hfg. revert a.
  induction l as [| b l IHl]; intros a; simpl.
  - reflexivity.
  - rewrite Hfg. apply IHl.
Qed.

Lemma flat_map_ext_all {A B : Type} (f g : A -> list B) (l : list A) :
  (forall x, f x = g x) -> flat_map f l = flat_map g l.
Proof.
  intros Hfg. induction l as [| a l IHl]; simpl; [reflexivity |].
  now rewrite Hfg, IHl.
Qed.

Lemma os_walk_Dir {St : Type} body top entries (st : St) :
  os_walk body top (Dir entries) st =
  let '(dirs, st') :=
    body top entries (dir_names entries) (file_names entries) st in
  fold_left
    (fun s dirname =>
       match lookup dirname entries with
       | Some child => os_walk body (join top dirname) child s
       | None => s
       end) dirs st'.
Proof.
  simpl.
  destruct (body top entries (dir_names entries) (file_names entries) st)
    as [dirs st'].
  apply fold_left_ext.
  intros s dirname.
  induction entries as [| [name child] es IHes]; simpl.
  - reflexivity.
  - destruct (String.eqb name dirname); [reflexivity | apply IHes].
Qed.

Lemma walk_yields_Dir top chain entries :
  walk_yields top chain (Dir entries) =
  {| v_root := top; v_chain := chain; v_here := entries |}
  :: flat_map
       (fun dirname =>
          match lookup dirname entries with
          | Some child =>
              walk_yields (join top dirname) (app chain [dirname]) child
          | None => []
          end)
       (filter keep_dir (dir_names entries)).
Proof.
  simpl. f_equal.
  apply flat_map_ext_all.
  intros dirname.
  induction entries as [| [name child] es IHes]; simpl.
  - reflexivity.
  - destruct (String.eqb name dirname); [reflexivity | apply IHes].
Qed.

Lemma lookup_In name entries child :
  lookup name entries = Some child -> In (name, child) entries.
Proof.
  induction entries as [| [n c] es IHes]; simpl; [discriminate |].
  destruct (String.eqb n name) eqn:E.
  - intros [= <-]. apply String.eqb_eq in E. subst. now left.
  - intros H. right. now apply IHes.
Qed.

(** ** The buffer is the preamble followed by the segments of the
    opened files *)

Lemma visit_files_unfold cwd start_path root chain here files output :
  fold_left (visit_file cwd start_path root here) files output =
  app output
      (flat_map (segments_of cwd start_path)
         (map (fun file => {| o_root := root; o_chain := chain;
                              o_here := here; o_file := file |})
              (filter keep_file files))).
Proof.
  revert output.
  induction files as [| file files IH]; intros output; simpl.
  - now rewrite app_nil_r.
  - rewrite IH. unfold visit_file at 1, keep_file at 2.
    destruct (should_skip_file file); simpl; [reflexivity |].
    unfold segments_of at 2, o_read, o_relative, o_path; simpl.
    destruct (open_read here (join root file) file);
      unfold block, error_line; now rewrite <- app_assoc.
Qed.

Lemma walk_body_unfold cwd start_path root chain here output :
  walk_body cwd start_path root here (dir_names here) (file_names here) output =
  (filter keep_dir (dir_names here),
   app output
       (flat_map (segments_of cwd start_path)
          (opened_in {| v_root := root; v_chain := chain; v_here := here |}))).
Proof.
  unfold walk_body, opened_in; simpl.
  destruct (in_excluded_path root); simpl.
  - now rewrite app_nil_r.
  - now rewrite (visit_files_unfold cwd start_path root chain).
Qed.

Lemma os_walk_unfold cwd start_path n :
  forall top chain output,
    os_walk (walk_body cwd start_path) top n output =
    app output
        (flat_map (segments_of cwd start_path)
           (flat_map opened_in (walk_yields top chain n))).
Proof.
  induction n as [r | | entries IH] using node_ind_nested; intros top chain output.
  - simpl. now rewrite app_nil_r.
  - simpl. now rewrite app_nil_r.
  - rewrite os_walk_Dir, walk_yields_Dir.
    rewrite (walk_body_unfold cwd start_path top chain).
    cbn [flat_map]. rewrite flat_map_app, app_assoc.
    generalize (app output
      (flat_map (segments_of cwd start_path)
         (opened_in {| v_root := top; v_chain := chain; v_here := entries |}))).
    generalize (filter keep_dir (dir_names entries)).
    intros dirs. induction dirs as [| d dirs IHd]; intros acc; simpl.
    + now rewrite app_nil_r.
    + rewrite IHd. rewrite !flat_map_app, app_assoc. f_equal.
      destruct (lookup d entries) as [child |] eqn:E.
      * apply lookup_In in E.
        rewrite Forall_forall in IH.
        apply (IH _ E).
      * simpl. now rewrite app_nil_r.
Qed.

Lemma collect_segments_unfold cwd fs now start_path :
  collect_segments cwd fs now start_path =
  app (preamble now)
      (flat_map (segments_of cwd start_path) (opened_files start_path fs)).
Proof.
  unfold collect_segments, opened_files.
  apply os_walk_unfold.
Qed.

(** ** Strings *)

Lemma append_nil_r (s : string) : s ++ "" = s.
Proof. induction s as [| c s IH]; simpl; [reflexivity | now rewrite IH]. Qed.

Lemma append_assoc (a b c : string) : (a ++ b) ++ c = a ++ (b ++ c).
Proof. induction a as [| x a IH]; simpl; [reflexivity | now rewrite IH]. Qed.

Lemma length_append (a b : string) :
  String.length (a ++ b) = String.length a + String.length b.
Proof. induction a as [| x a IH]; simpl; [reflexivity | now rewrite IH]. Qed.

Lemma substring_all (s : string) : substring 0 (String.length s) s = s.
Proof. induction s as [| c s IH]; simpl; [reflexivity | now rewrite IH]. Qed.

Lemma substring_skip (a b : string) (m : nat) :
  substring (String.length a) m (a ++ b) = substring 0 m b.
Proof. induction a as [| x a IH]; simpl; [reflexivity | apply IH]. Qed.

Lemma substring_cut (s : string) (k : nat) :
  k <= String.length s ->
  s = substring 0 k s ++ substring k (String.length s - k) s.
Proof.
  revert k. induction s as [| c s IH]; intros k Hk; simpl in *.
  - destruct k; reflexivity.
  - destruct k as [| k]; simpl.
    + now rewrite substring_all.
    + f_equal. apply IH. lia.
Qed.

(** [endswith] decides "has this suffix". *)
Lemma endswith_iff (s suffix : string) :
  endswith s suffix = true <-> exists pre, s = pre ++ suffix.
Proof.
  unfold endswith. split.
  - intros H. apply andb_true_iff in H as [Hle Heq].
    apply Nat.leb_le in Hle. apply String.eqb_eq in Heq.
    exists (substring 0 (String.length s - String.length suffix) s).
    pose proof (substring_cut s (String.length s - String.length suffix))
      as Hcut.
    replace (String.length s - (String.length s - String.length suffix))
      with (String.length suffix) in Hcut by lia.
    rewrite Heq in Hcut. apply Hcut. lia.
  - intros [pre ->]. rewrite length_append.
    apply andb_true_iff. split.
    + apply Nat.leb_le. lia.
    + replace (String.length pre + String.length suffix - String.length suffix)
        with (String.length pre) by lia.
      rewrite substring_skip, substring_all. apply String.eqb_refl.
Qed.

Lemma endswith_false_iff (s suffix : string) :
  endswith s suffix = false <-> ~ exists pre, s = pre ++ suffix.
Proof.
  rewrite <- endswith_iff. destruct (endswith s suffix); split; intros H;
    try reflexivity; try discriminate; try (intros; discriminate).
  exfalso. apply H. reflexivity.
Qed.

Lemma str_in_iff (x : string) (xs : list string) :
  str_in x xs = true <-> In x xs.
Proof.
  unfold str_in. rewrite existsb_exists. split.
  - intros [y [Hy E]]. apply String.eqb_eq in E. now subst.
  - intros H. exists x. split; [exact H | apply String.eqb_refl].
Qed.

Lemma str_in_false_iff (x : string) (xs : list string) :
  str_in x xs = false <-> ~ In x xs.
Proof.
  rewrite <- str_in_iff. destruct (str_in x xs); split; intros H;
    try reflexivity; try discriminate; try (intros; discriminate).
  exfalso. apply H. reflexivity.
Qed.

Lemma split_not_nil (c : ascii) (s : string) : split c s <> [].
Proof.
  destruct s as [| a s]; simpl; [discriminate |].
  destruct (Ascii.eqb a c); [discriminate |].
  destruct (split c s); discriminate.
Qed.

Lemma mentions_app (c : ascii) (x y : string) :
  mentions c (x ++ y) = mentions c x || mentions c y.
Proof.
  induction x as [| a x IH]; simpl; [reflexivity |].
  now rewrite IH, orb_assoc.
Qed.

Lemma split_without (c : ascii) (s : string) :
  mentions c s = false -> split c s = [s].
Proof.
  induction s as [| a s IH]; simpl; [reflexivity |].
  intros H. apply orb_false_iff in H as [Ha Hs].
  rewrite Ha, (IH Hs). reflexivity.
Qed.

Lemma split_app_sep (c : ascii) (a b : string) :
  split c (a ++ String c b) = app (split c a) (split c b).
Proof.
  induction a as [| x a IH]; simpl.
  - now rewrite Ascii.eqb_refl.
  - destruct (Ascii.eqb x c); simpl.
    + now rewrite IH.
    + rewrite IH.
      destruct (split c a) as [| w ws] eqn:E; [now apply split_not_nil in E |].
      reflexivity.
Qed.

Lemma split_pieces_clean (c : ascii) (s : string) :
  Forall (fun w => mentions c w = false) (split c s).
Proof.
  induction s as [| a s IH]; simpl.
  - repeat constructor.
  - destruct (Ascii.eqb a c) eqn:E.
    + constructor; [reflexivity | exact IH].
    + destruct (split c s) as [| w ws]; [repeat constructor; simpl; now rewrite E |].
      inversion IH; subst.
      constructor; [simpl; now rewrite E | assumption].
Qed.

(** [sep.join] undoes [split] on separator-free pieces. *)
Lemma split_concat (c : ascii) (ws : list string) :
  ws <> [] ->
  Forall (fun w => mentions c w = false) ws ->
  split c (String.concat (String c "") ws) = ws.
Proof.
  induction ws as [| w ws IH]; intros Hne Hall; [congruence |].
  inversion Hall as [| ? ? Hw Hws]; subst.
  destruct ws as [| w' ws'].
  - simpl. now apply split_without.
  - change (String.concat (String c "") (w :: w' :: ws'))
      with (w ++ String c (String.concat (String c "") (w' :: ws'))).
    rewrite split_app_sep, split_without by assumption.
    rewrite IH by (assumption || discriminate). reflexivity.
Qed.

(** ** Paths *)

Lemma valid_name_inv (d : string) :
  valid_name d = true ->
  d <> "" /\ mentions sep_char d = false /\ d <> curdir /\ d <> pardir.
Proof.
  unfold valid_name, nonempty, has_sep. intros H.
  repeat (apply andb_true_iff in H as [H ?]).
  repeat match goal with
         | X : negb _ = true |- _ => apply negb_true_iff in X
         end.
  repeat split; try assumption; now apply String.eqb_neq.
Qed.

Lemma isabs_iff (s : string) :
  isabs s = true <-> exists r, s = String sep_char r.
Proof.
  unfold isabs, sep, sep_char. split.
  - destruct s as [| c r]; simpl; [discriminate |].
    rewrite andb_true_r. intros H. apply Ascii.eqb_eq in H. subst c.
    now exists r.
  - intros [r ->]. reflexivity.
Qed.

Lemma startswith_sep_clean (d : string) :
  mentions sep_char d = false -> startswith d sep = false.
Proof.
  unfold sep. destruct d as [| c r]; simpl; [reflexivity |].
  intros H. apply orb_false_iff in H as [Hc _].
  rewrite andb_true_r, Ascii.eqb_sym. exact Hc.
Qed.

Lemma join_valid (a d : string) :
  mentions sep_char d = false ->
  join a d = if String.eqb a "" || endswith a sep then a ++ d else a ++ sep ++ d.
Proof.
  intros H. unfold join. now rewrite startswith_sep_clean.
Qed.

(** Joining a name keeps a path non-empty. *)
Lemma join_nonempty (a d : string) : a <> "" -> join a d <> "".
Proof.
  intros Ha. unfold join.
  destruct (startswith d sep) eqn:E.
  - destruct d; [discriminate E | discriminate].
  - destruct (String.eqb a "" || endswith a sep);
      (destruct a as [| c a']; [congruence | simpl; discriminate]).
Qed.

Lemma filter_nonempty_single (d : string) :
  d <> "" -> filter nonempty [d] = [d].
Proof.
  intros H. simpl. unfold nonempty.
  apply String.eqb_neq in H. now rewrite H.
Qed.

Lemma sep_append (d : string) : sep ++ d = String sep_char d.
Proof. reflexivity. Qed.

(** The non-empty pieces of [join a d] are those of [a], then [d]. *)
Lemma split_join (a d : string) :
  d <> "" -> mentions sep_char d = false ->
  filter nonempty (split sep_char (join a d)) =
  app (filter nonempty (split sep_char a)) [d].
Proof.
  intros Hne Hclean. rewrite join_valid by assumption.
  pose proof (split_without sep_char d Hclean) as Hd.
  destruct (String.eqb a "") eqn:Ea; simpl orb.
  - apply String.eqb_eq in Ea. subst a. simpl append.
    rewrite Hd. now rewrite filter_nonempty_single.
  - destruct (endswith a sep) eqn:Es.
    + apply endswith_iff in Es as [pre ->].
      rewrite append_assoc, sep_append.
      rewrite <- (append_nil_r sep), sep_append.
      rewrite !split_app_sep, !filter_app, Hd.
      rewrite filter_nonempty_single by assumption.
      simpl. now rewrite app_nil_r.
    + rewrite sep_append, split_app_sep, filter_app, Hd.
      now rewrite filter_nonempty_single.
Qed.

Lemma isabs_join (a d : string) :
  isabs a = true -> mentions sep_char d = false -> isabs (join a d) = true.
Proof.
  intros Ha Hd. apply isabs_iff in Ha as [r ->].
  rewrite join_valid by assumption. apply isabs_iff.
  destruct (String.eqb (String sep_char r) "" || endswith (String sep_char r) sep);
    simpl; eauto.
Qed.

Lemma path_of_snoc (start_path : string) (chain : list string) (d : string) :
  path_of start_path (app chain [d]) = join (path_of start_path chain) d.
Proof. unfold path_of. now rewrite fold_left_app. Qed.

Lemma isabs_path_of (start_path : string) (chain : list string) :
  isabs start_path = true ->
  Forall (fun d => valid_name d = true) chain ->
  isabs (path_of start_path chain) = true.
Proof.
  intros Hs Hc. revert start_path Hs.
  induction Hc as [| d chain Hd _ IH]; intros start_path Hs; simpl.
  - exact Hs.
  - apply IH. apply isabs_join; [exact Hs |].
    now apply valid_name_inv in Hd.
Qed.

(** ** normpath and relpath on the paths the walk builds *)

Lemma norm_fold_filter (k : nat) (l acc : list string) :
  fold_left (norm_step k) l acc =
  fold_left (norm_step k) (filter nonempty l) acc.
Proof.
  revert acc. induction l as [| w l IH]; intros acc; simpl; [reflexivity |].
  unfold nonempty at 1. destruct (String.eqb w "") eqn:E; simpl.
  - rewrite <- IH. unfold norm_step at 2. now rewrite E.
  - apply IH.
Qed.

Lemma norm_step_valid (k : nat) (acc : list string) (d : string) :
  valid_name d = true -> norm_step k acc d = app acc [d].
Proof.
  intros H. apply valid_name_inv in H as (H1 & _ & H2 & H3).
  apply String.eqb_neq in H1, H2, H3.
  unfold norm_step. now rewrite H1, H2, H3.
Qed.

Lemma abs_components_join (a d : string) :
  valid_name d = true ->
  abs_components (join a d) = app (abs_components a) [d].
Proof.
  intros H. pose proof (valid_name_inv d H) as (H1 & H2 & _).
  unfold abs_components.
  rewrite norm_fold_filter, split_join by assumption.
  rewrite fold_left_app, <- norm_fold_filter. simpl.
  now apply norm_step_valid.
Qed.

Lemma abs_components_path_of (start_path : string) (chain : list string) :
  Forall (fun d => valid_name d = true) chain ->
  abs_components (path_of start_path chain) =
  app (abs_components start_path) chain.
Proof.
  intros Hc. revert start_path.
  induction Hc as [| d chain Hd _ IH]; intros start_path; simpl.
  - now rewrite app_nil_r.
  - unfold path_of in *. simpl. rewrite IH, abs_components_join by assumption.
    now rewrite <- app_assoc.
Qed.

Lemma Forall_removelast {A : Type} (P : A -> Prop) (l : list A) :
  Forall P l -> Forall P (removelast l).
Proof.
  induction 1 as [| x l Hx Hl IH]; simpl; [constructor |].
  destruct l; [constructor | now constructor].
Qed.

Lemma norm_fold_clean (k : nat) (l acc : list string) :
  Forall (fun w => mentions sep_char w = false) l ->
  Forall (fun w => w <> "" /\ mentions sep_char w = false) acc ->
  Forall (fun w => w <> "" /\ mentions sep_char w = false)
         (fold_left (norm_step k) l acc).
Proof.
  intros Hl. revert acc.
  induction Hl as [| w l Hw _ IH]; intros acc Hacc; simpl; [exact Hacc |].
  apply IH. unfold norm_step.
  destruct (String.eqb w "") eqn:E; simpl; [exact Hacc |].
  destruct (String.eqb w curdir); simpl; [exact Hacc |].
  match goal with |- Forall _ (if ?c then _ else _) => destruct c end.
  - apply Forall_app. split; [exact Hacc |].
    constructor; [| constructor]. split; [now apply String.eqb_neq | exact Hw].
  - now apply Forall_removelast.
Qed.

Lemma abs_components_clean (p : string) :
  Forall (fun w => w <> "" /\ mentions sep_char w = false) (abs_components p).
Proof.
  unfold abs_components. apply norm_fold_clean; [| constructor].
  apply split_pieces_clean.
Qed.

Lemma filter_nonempty_all (l : list string) :
  Forall (fun w => w <> "") l -> filter nonempty l = l.
Proof.
  induction 1 as [| w l Hw _ IH]; simpl; [reflexivity |].
  unfold nonempty at 1. apply String.eqb_neq in Hw. rewrite Hw. simpl.
  now rewrite IH.
Qed.

Lemma split_leading_sep (s : string) :
  split sep_char (String sep_char s) = "" :: split sep_char s.
Proof. reflexivity. Qed.

(** The shape of [normpath] on an absolute path: one or two slashes,
    then the kept components joined by slashes. *)
Lemma normpath_abs (p : string) :
  isabs p = true ->
  exists k, (k = 1 \/ k = 2) /\
            normpath p =
            str_repeat sep_char k ++ String.concat sep (abs_components p).
Proof.
  intros Habs. unfold normpath.
  assert (Hne : String.eqb p "" = false).
  { apply String.eqb_neq. apply isabs_iff in Habs as [r ->]. discriminate. }
  rewrite Hne. unfold isabs in Habs. rewrite Habs.
  destruct (startswith p (sep ++ sep) && negb (startswith p (sep ++ sep ++ sep))).
  - exists 2. split; [now right |].
    replace (fold_left (norm_step 2) (split sep_char p) [])
      with (abs_components p)
      by (unfold abs_components; apply fold_left_ext; reflexivity).
    reflexivity.
  - exists 1. split; [now left |]. reflexivity.
Qed.

Lemma components_normpath (p : string) :
  isabs p = true ->
  filter nonempty (split sep_char (normpath p)) = abs_components p.
Proof.
  intros Habs.
  destruct (normpath_abs p Habs) as (k & Hk & ->).
  pose proof (abs_components_clean p) as Hclean.
  assert (Hbody :
    filter nonempty (split sep_char (String.concat sep (abs_components p)))
    = abs_components p).
  { destruct (abs_components p) as [| w ws] eqn:E; [reflexivity |].
    unfold sep. rewrite split_concat.
    - apply filter_nonempty_all.
      eapply Forall_impl; [| exact Hclean]. now intros ? [? _].
    - discriminate.
    - eapply Forall_impl; [| exact Hclean]. now intros ? [_ ?]. }
  destruct Hk as [-> | ->]; simpl str_repeat; simpl append;
    rewrite !split_leading_sep; simpl; exact Hbody.
Qed.

Lemma common_len_app (xs ys : list string) :
  common_len xs (app xs ys) = List.length xs.
Proof.
  induction xs as [| x xs IH]; simpl.
  - destruct ys; reflexivity.
  - now rewrite String.eqb_refl, IH.
Qed.

Lemma endswith_sep_app (x d : string) :
  d <> "" -> mentions sep_char d = false -> endswith (x ++ d) sep = false.
Proof.
  intros Hne Hclean. apply endswith_false_iff. intros [pre Hpre].
  assert (Hlast : forall y e, e <> "" -> y ++ e = pre ++ sep ->
                              exists e', e = e' ++ sep).
  { clear. intros y. revert pre.
    induction y as [| c y IH]; intros pre e He H; simpl in H.
    - now exists pre.
    - destruct pre as [| c' pre]; simpl in H.
      + injection H as _ H. destruct y; [simpl in H; congruence | discriminate].
      + injection H as _ H. now apply (IH pre). }
  destruct (Hlast x d Hne Hpre) as [e' ->].
  clear - Hclean. induction e' as [| c e' IH]; simpl in Hclean.
  - discriminate.
  - apply orb_false_iff in Hclean as [_ H]. now apply IH.
Qed.

Lemma concat_cons_join (a d : string) (rest : list string) :
  String.concat sep ((a ++ sep ++ d) :: rest) = String.concat sep (a :: d :: rest).
Proof.
  destruct rest as [| r rest]; simpl; [reflexivity |].
  now rewrite !append_assoc.
Qed.

Lemma fold_join_concat (rest : list string) :
  forall a,
    a <> "" -> endswith a sep = false ->
    Forall (fun d => valid_name d = true) rest ->
    fold_left join rest a = String.concat sep (a :: rest).
Proof.
  induction rest as [| d rest IH]; intros a Ha He Hv; [reflexivity |].
  inversion Hv as [| ? ? Hd Hrest]; subst.
  pose proof (valid_name_inv d Hd) as (H1 & H2 & _).
  cbn [fold_left]. rewrite join_valid by assumption.
  apply String.eqb_neq in Ha. rewrite Ha, He. simpl orb. cbv iota.
  rewrite IH.
  - apply concat_cons_join.
  - destruct a; [now rewrite String.eqb_refl in Ha | discriminate].
  - rewrite <- append_assoc. now apply endswith_sep_app.
  - assumption.
Qed.

Lemma join_all_valid (names : list string) :
  Forall (fun d => valid_name d = true) names ->
  join_all names = String.concat sep names.
Proof.
  destruct names as [| a rest]; [reflexivity |].
  intros Hv. inversion Hv as [| ? ? Ha Hrest]; subst.
  pose proof (valid_name_inv a Ha) as (H1 & H2 & _).
  apply fold_join_concat; try assumption.
  change a with ("" ++ a). now apply endswith_sep_app.
Qed.

(** For an absolute start, the relative path of a file reached through
    [chain] is the chain and the file name joined by slashes. *)
Lemma relpath_chain (cwd start_path : string) (chain : list string) (f : string) :
  isabs start_path = true ->
  Forall (fun d => valid_name d = true) chain ->
  valid_name f = true ->
  relpath cwd (join (path_of start_path chain) f) start_path =
  String.concat sep (app chain [f]).
Proof.
  intros Habs Hchain Hf.
  assert (Hall : Forall (fun d => valid_name d = true) (app chain [f])).
  { apply Forall_app. split; [assumption | now constructor]. }
  rewrite <- path_of_snoc.
  pose proof (isabs_path_of start_path _ Habs Hall) as Habs'.
  unfold relpath, abspath. rewrite Habs, Habs'.
  rewrite !components_normpath by assumption.
  rewrite abs_components_path_of by assumption.
  rewrite common_len_app, Nat.sub_diag, skipn_app, Nat.sub_diag, skipn_all.
  simpl repeat. simpl skipn. simpl app.
  destruct (app chain [f]) as [| x xs] eqn:E.
  - now destruct chain.
  - rewrite <- E in *. now apply join_all_valid.
Qed.

(** ** sorted *)

Lemma str_le_iff (a b : string) :
  str_le a b <-> OrderedTypeEx.String_as_OT.lt a b \/ a = b.
Proof.
  unfold str_le, String.leb.
  rewrite <- OrderedTypeEx.String_as_OT.cmp_lt, <- OrderedTypeEx.String_as_OT.cmp_eq.
  unfold OrderedTypeEx.String_as_OT.cmp.
  destruct (String.compare a b); intuition discriminate.
Qed.

Lemma str_le_refl (a : string) : str_le a a.
Proof. apply str_le_iff. now right. Qed.

Lemma str_le_trans (a b c : string) : str_le a b -> str_le b c -> str_le a c.
Proof.
  rewrite !str_le_iff. intros [Hab | ->] [Hbc | ->]; auto.
  left. eapply OrderedTypeEx.String_as_OT.lt_trans; eassumption.
Qed.

Lemma ltb_le (a b : string) : String.ltb a b = true -> str_le a b.
Proof.
  unfold String.ltb, str_le, String.leb.
  destruct (String.compare a b); congruence.
Qed.

Lemma not_ltb_ge (a b : string) : String.ltb a b = false -> str_le b a.
Proof.
  unfold String.ltb, str_le, String.leb. rewrite (String.compare_antisym b a).
  destruct (String.compare a b); simpl; congruence.
Qed.

Lemma insert_sorted_perm (x : string) (l : list string) :
  Permutation (insert_sorted x l) (x :: l).
Proof.
  induction l as [| y l IH]; simpl; [reflexivity |].
  destruct (String.ltb x y); [reflexivity |].
  rewrite IH. apply perm_swap.
Qed.

Lemma insert_sorted_Sorted (x : string) (l : list string) :
  Sorted str_le l -> Sorted str_le (insert_sorted x l).
Proof.
  induction 1 as [| y l Hl IH Hy]; simpl.
  - repeat constructor.
  - destruct (String.ltb x y) eqn:E.
    + constructor; [now constructor |]. constructor. now apply ltb_le.
    + constructor; [exact IH |].
      destruct l as [| z l]; simpl.
      * constructor. now apply not_ltb_ge.
      * destruct (String.ltb x z); constructor.
        -- now apply not_ltb_ge.
        -- now inversion Hy.
Qed.

Lemma sorted_fold_perm (xs acc : list string) :
  Permutation (fold_left (fun a x => insert_sorted x a) xs acc) (app xs acc).
Proof.
  revert acc. induction xs as [| x xs IH]; intros acc; simpl; [reflexivity |].
  rewrite IH, insert_sorted_perm. symmetry. apply Permutation_middle.
Qed.

(** [sorted] rearranges its argument ... *)
Lemma sorted_perm (xs : list string) : Permutation (sorted xs) xs.
Proof. unfold sorted. rewrite sorted_fold_perm. now rewrite app_nil_r. Qed.

(** ... into ascending order. *)
Lemma sorted_Sorted (xs : list string) : Sorted str_le (sorted xs).
Proof.
  unfold sorted.
  assert (H : forall acc, Sorted str_le acc ->
              Sorted str_le (fold_left (fun a x => insert_sorted x a) xs acc)).
  { induction xs as [| x xs IH]; intros acc Hacc; simpl; [exact Hacc |].
    apply IH. now apply insert_sorted_Sorted. }
  apply H. constructor.
Qed.

Lemma sorted_StronglySorted (xs : list string) :
  StronglySorted str_le (sorted xs).
Proof. apply Sorted_StronglySorted; [exact str_le_trans | apply sorted_Sorted]. Qed.

Lemma StronglySorted_filter {A : Type} (R : A -> A -> Prop) (p : A -> bool)
      (l : list A) :
  StronglySorted R l -> StronglySorted R (filter p l).
Proof.
  induction 1 as [| x l Hl IH Hx]; simpl; [constructor |].
  destruct (p x); [| exact IH].
  constructor; [exact IH |].
  rewrite Forall_forall in *. intros y Hy.
  apply filter_In in Hy as [Hy _]. now apply Hx.
Qed.

Lemma sorted_In (x : string) (xs : list string) : In x (sorted xs) <-> In x xs.
Proof.
  split; apply Permutation_in; [| symmetry]; apply sorted_perm.
Qed.

(** ** Which directories the loop receives *)

Lemma is_dir_resolves (child : node) (rest : list string) (here : list (string * node)) :
  resolve child rest = Some (Dir here) -> is_dir child = true.
Proof.
  destruct rest as [| d rest]; simpl.
  - now intros [= ->].
  - destruct child; try discriminate. reflexivity.
Qed.

Lemma dir_names_In (d : string) (child : node) (entries : list (string * node)) :
  In (d, child) entries -> is_dir child = true -> In d (dir_names entries).
Proof.
  intros Hin Hdir. unfold dir_names. apply in_map_iff.
  exists (d, child). split; [reflexivity |].
  apply filter_In. now split.
Qed.

(** Every yielded triple sits below the top through kept names only,
    and carries the listing found there. *)
Lemma walk_yields_sound (n : node) :
  forall top chain v,
    In v (walk_yields top chain n) ->
    exists rest,
      v_chain v = app chain rest
      /\ Forall (fun d => should_skip_directory d = false) rest
      /\ v_root v = path_of top rest
      /\ resolve n rest = Some (Dir (v_here v)).
Proof.
  induction n as [r | | entries IH] using node_ind_nested; intros top chain v Hv.
  - destruct Hv.
  - destruct Hv.
  - rewrite walk_yields_Dir in Hv. destruct Hv as [<- | Hv].
    + exists []. simpl. rewrite app_nil_r. repeat split. constructor.
    + apply in_flat_map in Hv as (d & Hd & Hv).
      apply filter_In in Hd as [_ Hkeep].
      destruct (lookup d entries) as [child |] eqn:E; [| destruct Hv].
      rewrite Forall_forall in IH.
      destruct (IH _ (lookup_In _ _ _ E) _ _ _ Hv) as (rest & H1 & H2 & H3 & H4).
      exists (d :: rest). repeat split.
      * rewrite H1, <- app_assoc. reflexivity.
      * constructor; [| exact H2].
        unfold keep_dir in Hkeep. now apply negb_true_iff in Hkeep.
      * exact H3.
      * simpl. now rewrite E.
Qed.

(** Every directory reachable through kept names is yielded. *)
Lemma walk_yields_complete (rest : list string) :
  forall n top chain here,
    resolve n rest = Some (Dir here) ->
    Forall (fun d => should_skip_directory d = false) rest ->
    In {| v_root := path_of top rest; v_chain := app chain rest; v_here := here |}
       (walk_yields top chain n).
Proof.
  induction rest as [| d rest IH]; intros n top chain here Hres Hkeep.
  - simpl in Hres. injection Hres as ->.
    rewrite walk_yields_Dir, app_nil_r. now left.
  - simpl in Hres. destruct n as [| entries |]; try discriminate.
    destruct (lookup d entries) as [child |] eqn:E; [| discriminate].
    inversion Hkeep as [| ? ? Hd Hrest]; subst.
    rewrite walk_yields_Dir. right.
    apply in_flat_map. exists d. split.
    + apply filter_In. split.
      * apply (dir_names_In d child); [now apply lookup_In |].
        now apply (is_dir_resolves child rest here).
      * unfold keep_dir. now rewrite Hd.
    + rewrite E.
      replace (app chain (d :: rest)) with (app (app chain [d]) rest)
        by (now rewrite <- app_assoc).
      now apply IH.
Qed.

(** ** Well-formed trees *)

Lemma valid_tree_Dir (entries : list (string * node)) :
  valid_tree (Dir entries) =
  forallb (fun e => valid_name (fst e) && valid_tree (snd e)) entries.
Proof.
  induction entries as [| [name child] es IH]; [reflexivity |].
  simpl in *. now rewrite IH.
Qed.

Lemma valid_tree_lookup (entries : list (string * node)) (d : string) (child : node) :
  valid_tree (Dir entries) = true ->
  lookup d entries = Some child ->
  valid_name d = true /\ valid_tree child = true.
Proof.
  rewrite valid_tree_Dir, forallb_forall. intros Hall Hl.
  apply lookup_In in Hl. specialize (Hall _ Hl). simpl in Hall.
  now apply andb_true_iff in Hall.
Qed.

Lemma valid_tree_resolve (chain : list string) :
  forall n n',
    valid_tree n = true ->
    resolve n chain = Some n' ->
    Forall (fun d => valid_name d = true) chain /\ valid_tree n' = true.
Proof.
  induction chain as [| d chain IH]; intros n n' Hv Hr; simpl in Hr.
  - injection Hr as <-. split; [constructor | exact Hv].
  - destruct n as [| entries |]; try discriminate.
    destruct (lookup d entries) as [child |] eqn:E; [| discriminate].
    destruct (valid_tree_lookup _ _ _ Hv E) as [Hd Hc].
    destruct (IH _ _ Hc Hr) as [Hchain Hn'].
    split; [now constructor | exact Hn'].
Qed.

Lemma file_names_In (f : string) (entries : list (string * node)) :
  In f (file_names entries) <-> exists n, In (f, n) entries /\ is_dir n = false.
Proof.
  unfold file_names. rewrite in_map_iff. split.
  - intros [[f' n] [<- H]]. apply filter_In in H as [H1 H2].
    exists n. split; [exact H1 |]. now apply negb_true_iff in H2.
  - intros [n [H1 H2]]. exists (f, n). split; [reflexivity |].
    apply filter_In. split; [exact H1 |]. simpl. now rewrite H2.
Qed.

Lemma valid_tree_file_name (entries : list (string * node)) (f : string) :
  valid_tree (Dir entries) = true ->
  In f (file_names entries) ->
  valid_name f = true.
Proof.
  rewrite valid_tree_Dir, forallb_forall. intros Hall Hf.
  apply file_names_In in Hf as [n [Hin _]].
  specialize (Hall _ Hin). simpl in Hall.
  now apply andb_true_iff in Hall.
Qed.

(** ** The path-level check along a walk *)

Lemma str_in_app (x : string) (l1 l2 : list string) :
  str_in x (app l1 l2) = str_in x l1 || str_in x l2.
Proof. unfold str_in. apply existsb_app. Qed.

Lemma str_in_filter_nonempty (x : string) (l : list string) :
  x <> "" -> str_in x (filter nonempty l) = str_in x l.
Proof.
  intros Hx. induction l as [| w l IH]; simpl; [reflexivity |].
  unfold nonempty at 1. destruct (String.eqb w "") eqn:E; simpl.
  - apply String.eqb_eq in E. subst w.
    apply String.eqb_neq in Hx. rewrite Hx. exact IH.
  - now rewrite IH.
Qed.

Lemma path_exclusions_nonempty :
  Forall (fun x => x <> "") path_exclusions.
Proof. repeat constructor; discriminate. Qed.

Lemma existsb_orb {A : Type} (f g : A -> bool) (l : list A) :
  existsb (fun x => f x || g x) l = existsb f l || existsb g l.
Proof.
  induction l as [| a l IH]; simpl; [reflexivity |].
  rewrite IH. destruct (f a), (g a), (existsb f l); reflexivity.
Qed.

Lemma existsb_ext_in {A : Type} (f g : A -> bool) (l : list A) :
  Forall (fun x => f x = g x) l -> existsb f l = existsb g l.
Proof. induction 1 as [| a l Ha _ IH]; simpl; [reflexivity | now rewrite Ha, IH]. Qed.

(** Entering [d] adds exactly the segment [d] to what the check sees. *)
Lemma in_excluded_path_join (a d : string) :
  d <> "" -> mentions sep_char d = false ->
  in_excluded_path (join a d) = in_excluded_path a || str_in d path_exclusions.
Proof.
  intros Hne Hclean. unfold in_excluded_path.
  transitivity
    (existsb (fun x => str_in x (split sep_char a) || String.eqb x d)
             path_exclusions).
  - apply existsb_ext_in.
    eapply Forall_impl; [| exact path_exclusions_nonempty].
    intros x Hx. simpl.
    rewrite <- (str_in_filter_nonempty x (split sep_char (join a d))) by exact Hx.
    rewrite split_join, str_in_app, str_in_filter_nonempty by assumption.
    unfold str_in at 2. simpl. now rewrite orb_false_r.
  - rewrite existsb_orb. f_equal.
    unfold str_in. apply existsb_ext_in.
    apply Forall_forall. intros x _. apply String.eqb_sym.
Qed.

Lemma in_excluded_path_of (start_path : string) (chain : list string) :
  Forall (fun d => valid_name d = true) chain ->
  in_excluded_path (path_of start_path chain) =
  in_excluded_path start_path
  || existsb (fun d => str_in d path_exclusions) chain.
Proof.
  intros Hc. revert start_path.
  induction Hc as [| d chain Hd _ IH]; intros start_path.
  - simpl. now rewrite orb_false_r.
  - apply valid_name_inv in Hd as (H1 & H2 & _).
    unfold path_of in *. simpl.
    rewrite IH, in_excluded_path_join by assumption.
    now rewrite orb_assoc.
Qed.

(** ** Which files the loop opens *)

Lemma opened_in_iff (v : visit) (o : opened) :
  In o (opened_in v) <->
  in_excluded_path (v_root v) = false
  /\ should_skip_file (o_file o) = false
  /\ In (o_file o) (file_names (v_here v))
  /\ o = {| o_root := v_root v; o_chain := v_chain v;
            o_here := v_here v; o_file := o_file o |}.
Proof.
  unfold opened_in. destruct (in_excluded_path (v_root v)).
  - split; [intros [] | intros [? _]; discriminate].
  - rewrite in_map_iff. split.
    + intros [f [<- Hf]]. apply filter_In in Hf as [Hin Hkeep].
      apply (proj1 (sorted_In _ _)) in Hin. unfold keep_file in Hkeep.
      apply negb_true_iff in Hkeep. simpl. auto.
    + intros (_ & Hskip & Hin & Ho). exists (o_file o).
      split; [now rewrite Ho |].
      apply filter_In. split; [now apply (proj2 (sorted_In _ _)) |].
      unfold keep_file. now rewrite Hskip.
Qed.

Lemma opened_files_sound (start_path : string) (fs : node) (o : opened) :
  In o (opened_files start_path fs) ->
  Forall (fun d => should_skip_directory d = false) (o_chain o)
  /\ o_root o = path_of start_path (o_chain o)
  /\ resolve fs (o_chain o) = Some (Dir (o_here o))
  /\ in_excluded_path (o_root o) = false
  /\ should_skip_file (o_file o) = false
  /\ In (o_file o) (file_names (o_here o)).
Proof.
  unfold opened_files. intros H.
  apply in_flat_map in H as (v & Hv & Ho).
  apply walk_yields_sound in Hv as (rest & H1 & H2 & H3 & H4).
  apply opened_in_iff in Ho as (E1 & E2 & E3 & ->). simpl in *.
  subst. repeat split; assumption.
Qed.

Lemma opened_files_complete (start_path : string) (fs : node)
      (chain : list string) (here : list (string * node)) (f : string) :
  resolve fs chain = Some (Dir here) ->
  Forall (fun d => should_skip_directory d = false) chain ->
  in_excluded_path (path_of start_path chain) = false ->
  In f (file_names here) ->
  should_skip_file f = false ->
  In {| o_root := path_of start_path chain; o_chain := chain;
        o_here := here; o_file := f |}
     (opened_files start_path fs).
Proof.
  intros Hres Hkeep Hexcl Hf Hskip. unfold opened_files.
  apply in_flat_map.
  exists {| v_root := path_of start_path chain; v_chain := chain; v_here := here |}.
  split.
  - apply (walk_yields_complete chain fs start_path [] here); assumption.
  - apply opened_in_iff. simpl. auto.
Qed.

Lemma flat_map_nil {A B : Type} (f : A -> list B) (l : list A) :
  (forall x, In x l -> f x = []) -> flat_map f l = [].
Proof.
  induction l as [| a l IH]; intros H; simpl; [reflexivity |].
  rewrite H by now left. apply IH. intros x Hx. apply H. now right.
Qed.

Lemma In_flat_map_split {A B : Type} (f : A -> list B) (l : list A) (x : A) :
  In x l -> exists pre post, flat_map f l = app pre (app (f x) post).
Proof.
  intros H. apply in_split in H as (l1 & l2 & ->).
  exists (flat_map f l1), (flat_map f l2).
  now rewrite flat_map_app.
Qed.

(** ** Names and relative paths of the opened files *)

Lemma opened_names_valid (start_path : string) (fs : node) (o : opened) :
  valid_tree fs = true ->
  In o (opened_files start_path fs) ->
  Forall (fun d => valid_name d = true) (app (o_chain o) [o_file o]).
Proof.
  intros Hv Ho.
  apply opened_files_sound in Ho as (_ & _ & Hres & _ & _ & Hf).
  destruct (valid_tree_resolve _ _ _ Hv Hres) as [Hchain Hhere].
  apply Forall_app. split; [exact Hchain |].
  constructor; [| constructor].
  now apply (valid_tree_file_name (o_here o)).
Qed.

(** For an absolute start and a well-formed tree, the relative path of
    an opened file spells the directories entered and the file name. *)
Lemma opened_relative (cwd start_path : string) (fs : node) (o : opened) :
  isabs start_path = true ->
  valid_tree fs = true ->
  In o (opened_files start_path fs) ->
  o_relative cwd start_path o = String.concat sep (app (o_chain o) [o_file o]).
Proof.
  intros Habs Hv Ho.
  pose proof (opened_names_valid _ _ _ Hv Ho) as Hall.
  apply Forall_app in Hall as [Hchain Hfile].
  inversion Hfile as [| ? ? Hf _]; subst.
  apply opened_files_sound in Ho as (_ & Hroot & _).
  unfold o_relative, o_path. rewrite Hroot.
  now apply relpath_chain.
Qed.

Lemma opened_relative_split (cwd start_path : string) (fs : node) (o : opened) :
  isabs start_path = true ->
  valid_tree fs = true ->
  In o (opened_files start_path fs) ->
  split sep_char (o_relative cwd start_path o) = app (o_chain o) [o_file o].
Proof.
  intros Habs Hv Ho.
  rewrite (opened_relative cwd start_path fs o Habs Hv Ho).
  apply (split_concat sep_char).
  - now destruct (o_chain o).
  - eapply Forall_impl; [| exact (opened_names_valid _ _ _ Hv Ho)].
    intros d Hd. now apply valid_name_inv in Hd.
Qed.

(** [relpath] is never handed an empty path (on which the library
    raises [ValueError]) when the start is not empty. *)
Lemma path_of_nonempty (start_path : string) (chain : list string) :
  start_path <> "" -> path_of start_path chain <> "".
Proof.
  revert start_path. induction chain as [| d chain IH]; intros s Hs; [exact Hs |].
  apply IH. now apply join_nonempty.
Qed.

Lemma opened_path_nonempty (start_path : string) (fs : node) (o : opened) :
  start_path <> "" ->
  In o (opened_files start_path fs) ->
  o_path o <> "".
Proof.
  intros Hs Ho. apply opened_files_sound in Ho as (_ & Hroot & _).
  unfold o_path. rewrite Hroot.
  now apply join_nonempty, path_of_nonempty.
Qed.

(** ** The loop sees the yielded triples, in order *)

Lemma os_walk_as_fold {St : Type}
      (g : string -> list (string * node) -> list string -> list string -> St -> St)
      (n : node) :
  forall top chain st,
    os_walk (fun top here dirs files st =>
               (filter keep_dir dirs, g top here dirs files st)) top n st =
    fold_left (fun st v => g (v_root v) (v_here v) (dir_names (v_here v))
                             (file_names (v_here v)) st)
              (walk_yields top chain n) st.
Proof.
  induction n as [r | | entries IH] using node_ind_nested; intros top chain st.
  - reflexivity.
  - reflexivity.
  - rewrite os_walk_Dir, walk_yields_Dir. cbn [fold_left v_root v_here].
    generalize (g top entries (dir_names entries) (file_names entries) st).
    generalize (filter keep_dir (dir_names entries)).
    intros dirs. induction dirs as [| d dirs IHd]; intros acc; simpl.
    + reflexivity.
    + rewrite fold_left_app, <- IHd. f_equal.
      destruct (lookup d entries) as [child |] eqn:E; [| reflexivity].
      apply lookup_In in E. rewrite Forall_forall in IH.
      apply (IH _ E).
Qed.

(** ** Directory exclusion *)

(** C2: whatever the tree, every directory the loop receives was
    reached from the root through names outside the exclusion set (the
    walk never enters an excluded name, at any depth), and therefore
    every file opened, hence every block or error line of the report,
    lies below non-excluded directory names only; for an absolute start
    and a well-formed tree those names are exactly the directory
    segments of the relative path printed in the block header. *)
Theorem excluded_directories_never_entered :
  forall (cwd : string) (fs : node) (now : datetime) (start_path : string),
    (forall (St : Type)
            (g : string -> list (string * node) -> list string ->
                 list string -> St -> St) (st : St),
        os_walk (fun top here dirs files st =>
                   (filter (fun d => negb (should_skip_directory d)) dirs,
                    g top here dirs files st)) start_path fs st =
        fold_left (fun st v => g (v_root v) (v_here v) (dir_names (v_here v))
                                 (file_names (v_here v)) st)
                  (walk_yields start_path [] fs) st)
    /\ (forall v, In v (walk_yields start_path [] fs) ->
          (forall d, In d (v_chain v) -> should_skip_directory d = false)
          /\ v_root v = path_of start_path (v_chain v)
          /\ resolve fs (v_chain v) = Some (Dir (v_here v)))
    /\ collect_segments cwd fs now start_path =
       app (preamble now)
           (flat_map (segments_of cwd start_path) (opened_files start_path fs))
    /\ (forall o, In o (opened_files start_path fs) ->
          (forall d, In d (o_chain o) -> should_skip_directory d = false)
          /\ o_root o = path_of start_path (o_chain o)
          /\ resolve fs (o_chain o) = Some (Dir (o_here o))
          /\ In (o_file o) (file_names (o_here o))
          /\ (isabs start_path = true -> valid_tree fs = true ->
              split sep_char (relpath cwd (join (o_root o) (o_file o)) start_path)
              = app (o_chain o) [o_file o])).
Proof.
  intros cwd fs now start_path.
  split; [| split; [| split]].
  - intros St g st. apply (os_walk_as_fold g fs start_path []).
  - intros v Hv.
    apply walk_yields_sound in Hv as (rest & H1 & H2 & H3 & H4).
    simpl in H1. subst rest. rewrite Forall_forall in H2. auto.
  - apply collect_segments_unfold.
  - intros o Ho.
    pose proof (opened_files_sound _ _ _ Ho) as (H1 & H2 & H3 & _ & _ & H6).
    rewrite Forall_forall in H1.
    repeat split; try assumption.
    intros Habs Hv.
    now apply (opened_relative_split cwd start_path fs o).
Qed.

Lemma excluded_directories_never_entered_witness :
  In {| o_root := "/home/u/proj/src"; o_chain := ["src"];
        o_here := [ ("main.txt", File (ReadOk "hello")) ];
        o_file := "main.txt" |}
     (opened_files "/home/u/proj" example_tree)
  /\ should_skip_directory "src" = false
  /\ resolve example_tree ["src"] =
     Some (Dir [ ("main.txt", File (ReadOk "hello")) ]).
Proof.
  assert (Hin : In {| o_root := "/home/u/proj/src"; o_chain := ["src"];
                      o_here := [ ("main.txt", File (ReadOk "hello")) ];
                      o_file := "main.txt" |}
                   (opened_files "/home/u/proj" example_tree))
    by (vm_compute; left; reflexivity).
  split; [exact Hin |].
  destruct (excluded_directories_never_entered
              "/home/u/proj" example_tree example_clock "/home/u/proj")
    as (_ & _ & _ & H).
  destruct (H _ Hin) as (H1 & _ & H3 & _ & _).
  split; [apply H1; now left | exact H3].
Defined.

(** ** Rewriting read outcomes leaves the walk alone *)

Lemma rewrite_reads_Dir f place entries :
  rewrite_reads f place (Dir entries) = Dir (rewrite_listing f place entries).
Proof.
  simpl. f_equal. unfold rewrite_listing.
  induction entries as [| [name child] es IH]; simpl; [reflexivity |].
  now rewrite IH.
Qed.

Lemma is_dir_rewrite f place n : is_dir (rewrite_reads f place n) = is_dir n.
Proof. destruct n; reflexivity. Qed.

Lemma dir_names_rewrite f chain here :
  dir_names (rewrite_listing f chain here) = dir_names here.
Proof.
  unfold dir_names, rewrite_listing.
  induction here as [| [name child] es IH]; simpl; [reflexivity |].
  rewrite is_dir_rewrite. destruct (is_dir child); simpl; now rewrite IH.
Qed.

Lemma file_names_rewrite f chain here :
  file_names (rewrite_listing f chain here) = file_names here.
Proof.
  unfold file_names, rewrite_listing.
  induction here as [| [name child] es IH]; simpl; [reflexivity |].
  rewrite is_dir_rewrite. destruct (is_dir child); simpl; now rewrite IH.
Qed.

Lemma lookup_rewrite f chain here d :
  lookup d (rewrite_listing f chain here) =
  option_map (rewrite_reads f (app chain [d])) (lookup d here).
Proof.
  unfold rewrite_listing.
  induction here as [| [name child] es IH]; simpl; [reflexivity |].
  destruct (String.eqb name d) eqn:E; [| exact IH].
  apply String.eqb_eq in E. now subst.
Qed.

Lemma map_flat_map {A B C : Type} (g : B -> C) (h : A -> list B) (l : list A) :
  map g (flat_map h l) = flat_map (fun x => map g (h x)) l.
Proof.
  induction l as [| a l IH]; simpl; [reflexivity |].
  now rewrite map_app, IH.
Qed.

Lemma flat_map_map {A B C : Type} (g : B -> list C) (h : A -> B) (l : list A) :
  flat_map g (map h l) = flat_map (fun x => g (h x)) l.
Proof.
  induction l as [| a l IH]; simpl; [reflexivity | now rewrite IH].
Qed.

Lemma walk_yields_rewrite f n :
  forall top chain,
    walk_yields top chain (rewrite_reads f chain n) =
    map (rewrite_visit f) (walk_yields top chain n).
Proof.
  induction n as [r | | entries IH] using node_ind_nested; intros top chain.
  - reflexivity.
  - reflexivity.
  - rewrite rewrite_reads_Dir, !walk_yields_Dir, dir_names_rewrite.
    cbn [map]. f_equal. rewrite map_flat_map.
    apply flat_map_ext_all. intros d.
    rewrite lookup_rewrite.
    destruct (lookup d entries) as [child |] eqn:E; [| reflexivity].
    simpl. rewrite Forall_forall in IH.
    apply (IH _ (lookup_In _ _ _ E)).
Qed.

Lemma opened_in_rewrite f v :
  opened_in (rewrite_visit f v) = map (rewrite_opened f) (opened_in v).
Proof.
  unfold opened_in. simpl.
  destruct (in_excluded_path (v_root v)); [reflexivity |].
  rewrite file_names_rewrite, map_map. reflexivity.
Qed.

(** Changing what reads return changes neither which files are opened
    nor their order. *)
Lemma opened_files_rewrite f start_path fs :
  opened_files start_path (rewrite_reads f [] fs) =
  map (rewrite_opened f) (opened_files start_path fs).
Proof.
  unfold opened_files.
  rewrite walk_yields_rewrite, flat_map_map, map_flat_map.
  apply flat_map_ext_all. intros v. apply opened_in_rewrite.
Qed.

Lemma o_read_rewrite f o r :
  lookup (o_file o) (o_here o) = Some (File r) ->
  o_read o = r
  /\ o_read (rewrite_opened f o) = f (app (o_chain o) [o_file o]) r.
Proof.
  intros H. unfold o_read, open_read. simpl.
  now rewrite lookup_rewrite, H.
Qed.

Lemma o_relative_rewrite f cwd start_path o :
  o_relative cwd start_path (rewrite_opened f o) = o_relative cwd start_path o.
Proof. reflexivity. Qed.

(** ** Joining segments *)

Lemma concat_app_nonempty (sp : string) (l1 l2 : list string) :
  l1 <> [] -> l2 <> [] ->
  String.concat sp (app l1 l2) =
  String.concat sp l1 ++ sp ++ String.concat sp l2.
Proof.
  intros H1 H2. induction l1 as [| a l1 IH]; [congruence |].
  destruct l1 as [| b l1].
  - destruct l2 as [| c l2]; [congruence | reflexivity].
  - change (String.concat sp (app (a :: b :: l1) l2))
      with (a ++ sp ++ String.concat sp (app (b :: l1) l2)).
    rewrite IH by discriminate.
    change (String.concat sp (a :: b :: l1))
      with (a ++ sp ++ String.concat sp (b :: l1)).
    now rewrite !append_assoc.
Qed.

Lemma concat_app_glue (sp : string) (l1 l2 : list string) :
  exists glue,
    String.concat sp (app l1 l2) =
    String.concat sp l1 ++ glue ++ String.concat sp l2.
Proof.
  destruct l1 as [| a l1]; [now exists "" |].
  destruct l2 as [| c l2].
  - exists "". rewrite app_nil_r. simpl String.concat at 3.
    now rewrite !append_nil_r.
  - exists sp. now apply concat_app_nonempty.
Qed.

Lemma segments_of_not_nil (cwd start_path : string) (o : opened) :
  segments_of cwd start_path o <> [].
Proof. unfold segments_of. destruct (o_read o); discriminate. Qed.

(** The report is the joined buffer. *)
Lemma collect_code_unfold (cwd : string) (fs : node) (now : datetime)
      (start_path : string) :
  collect_code cwd fs now start_path =
  String.concat nl
    (app (preamble now)
         (flat_map (segments_of cwd start_path) (opened_files start_path fs))).
Proof. unfold collect_code. now rewrite collect_segments_unfold. Qed.

(** The text of one opened file, inside the report: it starts on a fresh
    line. *)
Lemma report_holds_text (cwd : string) (fs : node) (now : datetime)
      (start_path : string) (pre post : list opened) (o : opened) :
  opened_files start_path fs = app pre (o :: post) ->
  exists rest,
    collect_code cwd fs now start_path =
    String.concat nl
      (app (preamble now) (flat_map (segments_of cwd start_path) pre))
    ++ nl ++ String.concat nl (segments_of cwd start_path o) ++ rest.
Proof.
  intros H. rewrite collect_code_unfold, H, flat_map_app. cbn [flat_map].
  rewrite app_assoc, concat_app_nonempty.
  - destruct (concat_app_glue nl (segments_of cwd start_path o)
                (flat_map (segments_of cwd start_path) post)) as [glue ->].
    exists (glue ++ String.concat nl
                      (flat_map (segments_of cwd start_path) post)).
    reflexivity.
  - discriminate.
  - pose proof (segments_of_not_nil cwd start_path o).
    destruct (segments_of cwd start_path o); [congruence | discriminate].
Qed.

Lemma report_holds_segments (cwd : string) (fs : node) (now : datetime)
      (start_path : string) (o : opened) :
  In o (opened_files start_path fs) ->
  exists before rest,
    collect_code cwd fs now start_path =
    before ++ nl ++ String.concat nl (segments_of cwd start_path o) ++ rest.
Proof.
  intros H. apply in_split in H as (pre & post & H).
  destruct (report_holds_text cwd fs now start_path pre post o H) as [rest E].
  eauto.
Qed.

Lemma block_text (rel content : string) :
  String.concat nl (block rel content) =
  "File: " ++ rel ++ nl ++ rule ++ nl ++ content ++ nl ++ nl ++ rule ++ nl ++ nl.
Proof. unfold block. cbn [String.concat]. now rewrite !append_assoc. Qed.

Lemma error_line_is_one_line (rel message : string) :
  mentions "010"%char rel = false ->
  mentions "010"%char message = false ->
  split "010"%char ("Error reading " ++ rel ++ ": " ++ message ++ nl) =
  [ "Error reading " ++ rel ++ ": " ++ message; "" ].
Proof.
  intros Hr Hm.
  replace ("Error reading " ++ rel ++ ": " ++ message ++ nl)
    with (("Error reading " ++ rel ++ ": " ++ message) ++ String "010"%char "")
    by (now rewrite !append_assoc).
  rewrite split_app_sep, split_without; [reflexivity |].
  rewrite !mentions_app, Hr, Hm. reflexivity.
Qed.

(** ** Reading files from the disk *)

Lemma disk_ind_nested (P : disk -> Prop) :
  (forall s, P (DiskFile s)) ->
  P DiskUnlistable ->
  (forall entries, Forall (fun e => P (snd e)) entries -> P (DiskDir entries)) ->
  forall d, P d.
Proof.
  intros HF HU HD.
  fix IH 1.
  intros [s | entries | ].
  - apply HF.
  - apply HD.
    induction entries as [| [name child] es IHes].
    + constructor.
    + constructor; [apply IH | exact IHes].
  - apply HU.
Qed.

Lemma mount_Dir (top : string) (entries : list (string * disk)) :
  mount top (DiskDir entries) = Dir (mount_listing top entries).
Proof.
  simpl. f_equal. unfold mount_listing.
  induction entries as [| [name child] es IH]; simpl; [reflexivity |].
  now rewrite IH.
Qed.

Lemma lookup_mount (top name : string) (entries : list (string * disk)) :
  lookup name (mount_listing top entries) =
  option_map (mount (join top name)) (disk_lookup name entries).
Proof.
  unfold mount_listing.
  induction entries as [| [n child] es IH]; simpl; [reflexivity |].
  destruct (String.eqb n name) eqn:E; [| exact IH].
  apply String.eqb_eq in E. now subst.
Qed.

(** Entering directories commutes with mounting. *)
Lemma resolve_mount (chain : list string) :
  forall (top : string) (d : disk),
    resolve (mount top d) chain =
    option_map (mount (path_of top chain)) (disk_resolve d chain).
Proof.
  induction chain as [| name chain IH]; intros top d; [reflexivity |].
  destruct d as [s | entries |]; try reflexivity.
  rewrite mount_Dir. cbn [resolve disk_resolve]. rewrite lookup_mount.
  destruct (disk_lookup name entries) as [child |]; [| reflexivity].
  cbn [option_map]. rewrite IH. reflexivity.
Qed.

Lemma disk_resolve_snoc (chain : list string) :
  forall d name child,
    disk_resolve d (app chain [name]) = Some child ->
    exists entries,
      disk_resolve d chain = Some (DiskDir entries)
      /\ disk_lookup name entries = Some child.
Proof.
  induction chain as [| c chain IH]; intros d name child H; simpl in H.
  - destruct d as [| entries |]; try discriminate.
    destruct (disk_lookup name entries) as [x |] eqn:E; [| discriminate].
    injection H as ->. exists entries. now split.
  - destruct d as [| entries |]; try discriminate.
    destruct (disk_lookup c entries) as [x |] eqn:E; [| discriminate].
    destruct (IH _ _ _ H) as (here & H1 & H2).
    exists here. simpl. rewrite E. now split.
Qed.

(** What an opened file answers is what [read_text] makes of the bytes
    stored at its place, read at the path the loop builds. *)
Lemma opened_reads_disk (start_path : string) (d : disk) (o : opened)
      (s : stored) :
  In o (opened_files start_path (mount start_path d)) ->
  disk_resolve d (app (o_chain o) [o_file o]) = Some (DiskFile s) ->
  o_read o = read_text (join (o_root o) (o_file o)) s.
Proof.
  intros Ho Hres.
  apply opened_files_sound in Ho as (_ & Hroot & Hdir & _).
  destruct (disk_resolve_snoc _ _ _ _ Hres) as (entries & Hd & Hl).
  rewrite resolve_mount, Hd in Hdir. cbn [option_map] in Hdir.
  rewrite mount_Dir in Hdir. injection Hdir as Hhere.
  unfold o_read, open_read, o_path.
  rewrite <- Hhere, lookup_mount, Hl, <- Hroot. reflexivity.
Qed.

(** The translation leaves no carriage return, and changes nothing
    else. *)
Lemma universal_newlines_clean (s : string) :
  mentions carriage_return (universal_newlines s) = false.
Proof.
  assert (H : forall n s, String.length s <= n ->
                          mentions carriage_return (universal_newlines s) = false).
  { clear s. induction n as [| n IH]; intros s Hn.
    - destruct s; [reflexivity | simpl in Hn; lia].
    - destruct s as [| c rest]; [reflexivity |].
      simpl in Hn. cbn [universal_newlines].
      destruct (Ascii.eqb c carriage_return) eqn:Ec.
      + destruct rest as [| c' rest']; [reflexivity |].
        simpl in Hn.
        destruct (Ascii.eqb c' line_feed); cbn [mentions];
          rewrite IH by (simpl; lia); reflexivity.
      + cbn [mentions]. rewrite Ec, IH by lia. reflexivity. }
  apply (H (String.length s)). lia.
Qed.

Lemma universal_newlines_id (s : string) :
  mentions carriage_return s = false -> universal_newlines s = s.
Proof.
  induction s as [| c rest IH]; [reflexivity |].
  cbn [mentions universal_newlines]. intros H.
  apply orb_false_iff in H as [Hc Hr]. rewrite Hc. now rewrite IH.
Qed.

Lemma universal_newlines_verbatim_iff (s : string) :
  universal_newlines s = s <-> mentions carriage_return s = false.
Proof.
  split; [| apply universal_newlines_id].
  intros H. rewrite <- H. apply universal_newlines_clean.
Qed.

Lemma universal_newlines_length (s : string) :
  String.length (universal_newlines s) <= String.length s.
Proof.
  assert (H : forall n s, String.length s <= n ->
                          String.length (universal_newlines s) <= String.length s).
  { clear s. induction n as [| n IH]; intros s Hn.
    - destruct s; [simpl; lia | simpl in Hn; lia].
    - destruct s as [| c rest]; [simpl; lia |].
      simpl in Hn. cbn [universal_newlines].
      destruct (Ascii.eqb c carriage_return).
      + destruct rest as [| c' rest']; [simpl; lia |].
        simpl in Hn.
        destruct (Ascii.eqb c' line_feed); cbn [String.length].
        * specialize (IH rest'). lia.
        * pose proof (IH (String c' rest')) as IH'.
          cbn [String.length] in IH'. lia.
      + cbn [String.length]. specialize (IH rest). lia. }
  apply (H (String.length s)). lia.
Qed.

(** Without a refused file, the mounted tree does not depend on where
    the disk is mounted. *)
Lemma mount_never_denied (d : disk) :
  forall top1 top2,
    never_denied d = true -> mount top1 d = mount top2 d.
Proof.
  induction d as [s | | entries IH] using disk_ind_nested; intros top1 top2 H.
  - destruct s; [reflexivity | discriminate].
  - reflexivity.
  - rewrite !mount_Dir. f_equal. unfold mount_listing.
    induction entries as [| [name child] es IHes]; [reflexivity |].
    simpl in H. apply andb_true_iff in H as [Hc Hes].
    inversion IH as [| ? ? Hchild Hrest]; subst.
    cbn [map fst snd]. f_equal.
    + f_equal. now apply Hchild.
    + now apply IHes.
Qed.

(** ** Per-file error handling *)

(** C4: for every tree, the report is the joined buffer, and a file
    whose read raises contributes to it exactly one segment, "Error
    reading <relative path>: <message>" and a newline, in place of a
    block.  In the report text that segment follows a newline and ends
    with one, and it is a single line whenever neither the path nor the
    message holds a newline.  Every other opened file still contributes
    its block, whose text stands in the report; which files are opened,
    in which order, does not depend on what any read returns.  Both a
    file that is not UTF-8 and a file that may not be opened read as
    errors.  The function returns and the run, when the write succeeds,
    ends with status 0. *)
Theorem read_error_recorded_inline :
  forall (cwd : string) (fs : node) (now : datetime) (start_path : string),
    collect_code cwd fs now start_path =
    String.concat nl
      (app (preamble now)
           (flat_map (segments_of cwd start_path) (opened_files start_path fs)))
    /\ (forall o message,
          o_read o = ReadError message ->
          segments_of cwd start_path o =
          [ "Error reading " ++ relpath cwd (join (o_root o) (o_file o)) start_path
            ++ ": " ++ message ++ nl ])
    /\ (forall o content,
          o_read o = ReadOk content ->
          segments_of cwd start_path o =
          block (relpath cwd (join (o_root o) (o_file o)) start_path) content)
    /\ (forall o message,
          In o (opened_files start_path fs) ->
          o_read o = ReadError message ->
          exists before rest,
            collect_code cwd fs now start_path =
            before ++ nl
            ++ ("Error reading "
                ++ relpath cwd (join (o_root o) (o_file o)) start_path
                ++ ": " ++ message)
            ++ nl ++ rest)
    /\ (forall o content,
          In o (opened_files start_path fs) ->
          o_read o = ReadOk content ->
          exists before rest,
            collect_code cwd fs now start_path =
            before ++ nl
            ++ ("File: " ++ relpath cwd (join (o_root o) (o_file o)) start_path
                ++ nl ++ rule ++ nl ++ content ++ nl ++ nl ++ rule ++ nl ++ nl)
            ++ rest)
    /\ (forall rel message,
          mentions "010"%char rel = false ->
          mentions "010"%char message = false ->
          split "010"%char ("Error reading " ++ rel ++ ": " ++ message ++ nl) =
          [ "Error reading " ++ rel ++ ": " ++ message; "" ])
    /\ (forall f,
          opened_files start_path (rewrite_reads f [] fs) =
          map (rewrite_opened f) (opened_files start_path fs))
    /\ (forall f o r,
          lookup (o_file o) (o_here o) = Some (File r) ->
          o_read o = r
          /\ o_read (rewrite_opened f o) = f (app (o_chain o) [o_file o]) r
          /\ o_relative cwd start_path (rewrite_opened f o) =
             o_relative cwd start_path o)
    /\ (forall file_path raw message,
          utf8_error raw = Some message ->
          read_text file_path (Bytes raw) = ReadError message)
    /\ (forall file_path message,
          read_text file_path (Denied message) = ReadError (message file_path))
    /\ (forall w current_dir,
          getcwd w = Returned current_dir -> tree w = fs ->
          write_error w = None ->
          main w =
          Completed (output_file,
                     collect_code current_dir fs (clock w) current_dir)
                    ("Code has been consolidated into " ++ output_file ++ nl)
          /\ exit_status (main w) = 0).
Proof.
  intros cwd fs now start_path. split; [apply collect_code_unfold |].
  assert (Herr : forall o message,
            o_read o = ReadError message ->
            segments_of cwd start_path o =
            [ "Error reading " ++ relpath cwd (join (o_root o) (o_file o)) start_path
              ++ ": " ++ message ++ nl ])
    by (intros o message H; unfold segments_of; now rewrite H).
  assert (Hok : forall o content,
            o_read o = ReadOk content ->
            segments_of cwd start_path o =
            block (relpath cwd (join (o_root o) (o_file o)) start_path) content)
    by (intros o content H; unfold segments_of; now rewrite H).
  split; [exact Herr |]. split; [exact Hok |].
  split; [| split; [| split; [| split; [| split; [| split; [| split]]]]]].
  - intros o message Ho H.
    destruct (report_holds_segments cwd fs now start_path o Ho)
      as (before & rest & E).
    exists before, rest. rewrite E, (Herr o message H).
    cbn [String.concat]. now rewrite !append_assoc.
  - intros o content Ho H.
    destruct (report_holds_segments cwd fs now start_path o Ho)
      as (before & rest & E).
    exists before, rest. rewrite E, (Hok o content H), block_text.
    now rewrite !append_assoc.
  - apply error_line_is_one_line.
  - intros f. apply opened_files_rewrite.
  - intros f o r H. destruct (o_read_rewrite f o r H) as [H1 H2].
    repeat split; assumption.
  - intros file_path raw message H. unfold read_text. now rewrite H.
  - reflexivity.
  - intros w current_dir H1 H2 H3. unfold main.
    rewrite H1, H2, H3. split; reflexivity.
Qed.

Lemma read_error_recorded_inline_witness :
  collect_code "/home/u/proj" (mount "/home/u/proj" flaky_disk) example_clock
               "/home/u/proj" =
  String.concat nl
    (app (preamble example_clock)
         (app (block "a.txt" "A")
              (app (error_line "b.txt"
                      "'utf-8' codec can't decode byte 0xff in position 0: invalid start byte")
                   (block "c.txt" "C"))))
  /\ exists before rest,
       collect_code "/home/u/proj" (mount "/home/u/proj" flaky_disk)
                    example_clock "/home/u/proj" =
       before ++ nl
       ++ "Error reading b.txt: 'utf-8' codec can't decode byte 0xff in position 0: invalid start byte"
       ++ nl ++ rest.
Proof.
  destruct (read_error_recorded_inline
              "/home/u/proj" (mount "/home/u/proj" flaky_disk) example_clock
              "/home/u/proj") as (H & _ & _ & Hline & _).
  split; [rewrite H; reflexivity |].
  apply (Hline {| o_root := "/home/u/proj"; o_chain := [];
                  o_here := mount_listing "/home/u/proj"
                              [ ("a.txt", DiskFile (Bytes "A"));
                                ("b.txt", DiskFile (Bytes (String "255" "")));
                                ("c.txt", DiskFile (Bytes "C")) ];
                  o_file := "b.txt" |}
               "'utf-8' codec can't decode byte 0xff in position 0: invalid start byte").
  - vm_compute. tauto.
  - reflexivity.
Defined.

(** ** File exclusion *)

Lemma should_skip_file_iff (file_name : string) :
  should_skip_file file_name = true <->
  (exists ext, In ext skip_extensions /\ exists stem, file_name = stem ++ ext)
  \/ In file_name skip_files.
Proof.
  unfold should_skip_file. rewrite orb_true_iff, existsb_exists, str_in_iff.
  split; intros [H | H]; auto; left.
  - destruct H as [ext [Hin He]]. exists ext. split; [exact Hin |].
    now apply endswith_iff.
  - destruct H as [ext [Hin He]]. exists ext. split; [exact Hin |].
    now apply endswith_iff.
Qed.

(** C5: a file is skipped exactly when its name ends with one of the
    listed extensions or is one of the listed lock-file names; the
    decision is a function of the name alone (rewriting the contents of
    the whole tree leaves the opened files unchanged); and no file whose
    name is skipped is opened, so none contributes to the report. *)
Theorem skipped_files_by_name_only :
  forall (cwd : string) (fs : node) (now : datetime) (start_path : string),
    (forall file_name,
        should_skip_file file_name = true <->
        (exists ext, In ext skip_extensions
                     /\ exists stem, file_name = stem ++ ext)
        \/ In file_name skip_files)
    /\ collect_segments cwd fs now start_path =
       app (preamble now)
           (flat_map (segments_of cwd start_path) (opened_files start_path fs))
    /\ (forall o, In o (opened_files start_path fs) ->
                  should_skip_file (o_file o) = false)
    /\ (forall f,
          map o_file (opened_files start_path (rewrite_reads f [] fs)) =
          map o_file (opened_files start_path fs)).
Proof.
  intros cwd fs now start_path. repeat split.
  - apply should_skip_file_iff.
  - apply should_skip_file_iff.
  - apply collect_segments_unfold.
  - intros o Ho. now apply opened_files_sound in Ho.
  - intros f. rewrite opened_files_rewrite, map_map. reflexivity.
Qed.

Lemma skipped_files_by_name_only_witness :
  should_skip_file "Cargo.lock" = true
  /\ should_skip_file "debug.log" = true
  /\ should_skip_file "main.txt" = false
  /\ map o_file (opened_files "/home/u/proj" example_tree) = ["main.txt"].
Proof.
  destruct (skipped_files_by_name_only
              "/home/u/proj" example_tree example_clock "/home/u/proj")
    as (Hiff & _ & Hopen & _).
  split; [| split; [| split]].
  - apply Hiff. right. now left.
  - apply Hiff. left. exists ".log". split.
    + unfold skip_extensions. simpl. tauto.
    + now exists "debug".
  - apply (Hopen {| o_root := "/home/u/proj/src"; o_chain := ["src"];
                    o_here := [ ("main.txt", File (ReadOk "hello")) ];
                    o_file := "main.txt" |}).
    vm_compute. now left.
  - reflexivity.
Defined.

(** ** Order of the files of one directory *)

Lemma Permutation_filter_same {A : Type} (p : A -> bool) (l l' : list A) :
  Permutation l l' -> Permutation (filter p l) (filter p l').
Proof.
  induction 1 as [| x l l' _ IH | x y l | l l' l'' _ IH1 _ IH2]; simpl.
  - constructor.
  - destruct (p x); [now constructor | exact IH].
  - destruct (p x), (p y); try reflexivity. apply perm_swap.
  - now transitivity (filter p l').
Qed.

Lemma file_names_perm (es es' : list (string * node)) :
  Permutation es es' -> Permutation (file_names es) (file_names es').
Proof.
  intros H. unfold file_names.
  apply Permutation_map. now apply Permutation_filter_same.
Qed.

Lemma dir_names_perm (es es' : list (string * node)) :
  Permutation es es' -> Permutation (dir_names es) (dir_names es').
Proof.
  intros H. unfold dir_names.
  apply Permutation_map. now apply Permutation_filter_same.
Qed.

Lemma str_le_antisym (a b : string) : str_le a b -> str_le b a -> a = b.
Proof. apply String.leb_antisym. Qed.

(** Two ascending arrangements of the same strings coincide. *)
Lemma ascending_unique (l1 : list string) :
  forall l2,
    StronglySorted str_le l1 -> StronglySorted str_le l2 ->
    Permutation l1 l2 -> l1 = l2.
Proof.
  induction l1 as [| a l1 IH]; intros l2 H1 H2 HP.
  - apply Permutation_nil in HP. now subst.
  - destruct l2 as [| b l2].
    + symmetry in HP. now apply Permutation_nil in HP.
    + apply StronglySorted_inv in H1 as [H1 Ha].
      apply StronglySorted_inv in H2 as [H2 Hb].
      rewrite Forall_forall in Ha, Hb.
      assert (E : a = b).
      { assert (Hab : In a (b :: l2))
          by (apply (Permutation_in _ HP); now left).
        assert (Hba : In b (a :: l1))
          by (apply (Permutation_in _ (Permutation_sym HP)); now left).
        destruct Hab as [-> | Hab]; [reflexivity |].
        destruct Hba as [-> | Hba]; [reflexivity |].
        apply str_le_antisym; [now apply Ha | now apply Hb]. }
      subst b. f_equal. apply IH; try assumption.
      now apply Permutation_cons_inv in HP.
Qed.

Lemma sorted_of_perm (xs ys : list string) :
  Permutation xs ys -> sorted xs = sorted ys.
Proof.
  intros H. apply ascending_unique; try apply sorted_StronglySorted.
  rewrite !sorted_perm. exact H.
Qed.

Lemma lookup_NoDup (es : list (string * node)) (k : string) (n : node) :
  NoDup (map fst es) -> In (k, n) es -> lookup k es = Some n.
Proof.
  induction es as [| [k' n'] es IH]; intros Hnd Hin; [destruct Hin |].
  simpl in *. inversion Hnd as [| ? ? Hk Hnd']; subst.
  destruct Hin as [[= -> ->] | Hin].
  - now rewrite String.eqb_refl.
  - destruct (String.eqb k' k) eqn:E; [| now apply IH].
    apply String.eqb_eq in E. subst k'.
    exfalso. apply Hk. apply in_map_iff. now exists (k, n).
Qed.

Lemma opened_in_names (v : visit) :
  map o_file (opened_in v) =
  if in_excluded_path (v_root v) then []
  else filter keep_file (sorted (file_names (v_here v))).
Proof.
  unfold opened_in. destruct (in_excluded_path (v_root v)); [reflexivity |].
  rewrite map_map. simpl. apply map_id.
Qed.

Lemma flat_map_flat_map {A B C : Type} (g : B -> list C) (h : A -> list B)
      (l : list A) :
  flat_map g (flat_map h l) = flat_map (fun x => flat_map g (h x)) l.
Proof.
  induction l as [| a l IH]; simpl; [reflexivity |].
  now rewrite flat_map_app, IH.
Qed.

Lemma lookup_perm (es es' : list (string * node)) (k : string) :
  Permutation es es' -> NoDup (map fst es) -> lookup k es = lookup k es'.
Proof.
  intros HP Hnd.
  assert (Hnd' : NoDup (map fst es'))
    by (apply (Permutation_NoDup (Permutation_map fst HP) Hnd)).
  destruct (lookup k es) as [n |] eqn:E.
  - symmetry. apply lookup_NoDup; [exact Hnd' |].
    apply (Permutation_in _ HP). now apply lookup_In.
  - destruct (lookup k es') as [n |] eqn:E'; [| reflexivity].
    apply lookup_In in E'. apply (Permutation_in _ (Permutation_sym HP)) in E'.
    rewrite (lookup_NoDup _ _ _ Hnd E') in E. discriminate.
Qed.

(** What a directory adds to the buffer does not depend on the order in
    which it was listed. *)
Lemma listing_order_irrelevant (cwd start_path root : string)
      (chain : list string) (es es' : list (string * node)) :
  Permutation es es' -> NoDup (map fst es) ->
  flat_map (segments_of cwd start_path)
           (opened_in {| v_root := root; v_chain := chain; v_here := es |}) =
  flat_map (segments_of cwd start_path)
           (opened_in {| v_root := root; v_chain := chain; v_here := es' |}).
Proof.
  intros HP Hnd. unfold opened_in. cbn [v_root v_chain v_here].
  destruct (in_excluded_path root); [reflexivity |].
  rewrite (sorted_of_perm _ _ (file_names_perm _ _ HP)), !flat_map_map.
  apply flat_map_ext_all. intros f.
  unfold segments_of, o_read, o_relative, o_path, open_read.
  cbn [o_root o_file o_here].
  now rewrite (lookup_perm es es' f HP Hnd).
Qed.

Lemma StronglySorted_before {A : Type} (R : A -> A -> Prop) (l1 : list A) :
  forall x l2 y,
    StronglySorted R (app l1 (x :: l2)) -> In y l1 -> R y x.
Proof.
  induction l1 as [| a l1 IH]; intros x l2 y H Hy; [destruct Hy |].
  simpl in H. apply StronglySorted_inv in H as [H Ha].
  destruct Hy as [<- | Hy].
  - rewrite Forall_forall in Ha. apply Ha. apply in_or_app. right. now left.
  - now apply (IH x l2).
Qed.

(** In a list sorted by name, an entry with the smaller name stands
    before one with the greater. *)
Lemma sorted_split_order {A : Type} (f : A -> string) (l : list A) (a b : A) :
  StronglySorted str_le (map f l) ->
  In a l -> In b l -> f a <> f b -> str_le (f a) (f b) ->
  exists l1 l2 l3, l = app l1 (a :: app l2 (b :: l3)).
Proof.
  intros Hs Ha Hb Hne Hle.
  apply in_split in Ha as (l1 & l' & ->).
  apply in_app_or in Hb as [Hb | [Hb | Hb]].
  - exfalso. apply Hne. apply str_le_antisym; [exact Hle |].
    rewrite map_app in Hs. cbn [map] in Hs.
    apply (StronglySorted_before str_le _ _ _ _ Hs).
    now apply in_map.
  - now subst.
  - apply in_split in Hb as (l2 & l3 & ->). now exists l1, l2, l3.
Qed.

Lemma opened_in_sorted (v : visit) :
  StronglySorted str_le (map o_file (opened_in v)).
Proof.
  rewrite opened_in_names.
  destruct (in_excluded_path (v_root v)); [constructor |].
  apply StronglySorted_filter, sorted_StronglySorted.
Qed.

(** Two files opened one after the other, however far apart, leave
    their texts in the report in that order. *)
Lemma report_holds_two (cwd : string) (fs : node) (now : datetime)
      (start_path : string) (pre mid post : list opened) (o1 o2 : opened) :
  opened_files start_path fs = app pre (o1 :: app mid (o2 :: post)) ->
  exists before between rest,
    collect_code cwd fs now start_path =
    before ++ nl ++ String.concat nl (segments_of cwd start_path o1)
    ++ between ++ String.concat nl (segments_of cwd start_path o2) ++ rest.
Proof.
  intros H. rewrite collect_code_unfold, H.
  rewrite flat_map_app. cbn [flat_map]. rewrite flat_map_app. cbn [flat_map].
  rewrite app_assoc.
  pose proof (segments_of_not_nil cwd start_path o1) as N1.
  pose proof (segments_of_not_nil cwd start_path o2) as N2.
  rewrite concat_app_nonempty;
    [| discriminate
     | destruct (segments_of cwd start_path o1); [congruence | discriminate] ].
  rewrite (concat_app_nonempty nl (segments_of cwd start_path o1));
    [| exact N1
     | intros E; apply app_eq_nil in E as [_ E];
       apply app_eq_nil in E as [E _]; congruence ].
  destruct (concat_app_glue nl
              (flat_map (segments_of cwd start_path) mid)
              (app (segments_of cwd start_path o2)
                   (flat_map (segments_of cwd start_path) post))) as [g1 ->].
  destruct (concat_app_glue nl (segments_of cwd start_path o2)
              (flat_map (segments_of cwd start_path) post)) as [g2 ->].
  exists (String.concat nl
            (app (preamble now) (flat_map (segments_of cwd start_path) pre))),
         (nl ++ String.concat nl (flat_map (segments_of cwd start_path) mid) ++ g1),
         (g2 ++ String.concat nl (flat_map (segments_of cwd start_path) post)).
  now rewrite !append_assoc.
Qed.

Lemma abz_segments (cwd start_path : string) (now : datetime)
      (entries : list (string * node)) (ca cb cz : string) :
  Permutation entries
    [ ("a.txt", File (ReadOk ca)); ("b.txt", File (ReadOk cb));
      ("z.txt", File (ReadOk cz)) ] ->
  in_excluded_path start_path = false ->
  collect_segments cwd (Dir entries) now start_path =
  app (preamble now)
      (app (block (relpath cwd (join start_path "a.txt") start_path) ca)
           (app (block (relpath cwd (join start_path "b.txt") start_path) cb)
                (block (relpath cwd (join start_path "z.txt") start_path) cz))).
Proof.
  intros HP Hexcl.
  rewrite collect_segments_unfold. f_equal.
  unfold opened_files. rewrite walk_yields_Dir.
  pose proof (dir_names_perm _ _ HP) as Hd. simpl in Hd.
  symmetry in Hd. apply Permutation_nil in Hd. rewrite Hd.
  cbn [filter flat_map]. rewrite app_nil_r.
  unfold opened_in. cbn [v_root v_here v_chain]. rewrite Hexcl.
  rewrite (sorted_of_perm _ _ (file_names_perm _ _ HP)).
  assert (Hnd : NoDup (map fst entries)).
  { apply (Permutation_NoDup (Permutation_sym (Permutation_map fst HP))).
    simpl. repeat constructor; simpl; intuition discriminate. }
  assert (La : lookup "a.txt" entries = Some (File (ReadOk ca))).
  { apply lookup_NoDup; [exact Hnd |].
    apply (Permutation_in _ (Permutation_sym HP)). simpl. tauto. }
  assert (Lb : lookup "b.txt" entries = Some (File (ReadOk cb))).
  { apply lookup_NoDup; [exact Hnd |].
    apply (Permutation_in _ (Permutation_sym HP)). simpl. tauto. }
  assert (Lz : lookup "z.txt" entries = Some (File (ReadOk cz))).
  { apply lookup_NoDup; [exact Hnd |].
    apply (Permutation_in _ (Permutation_sym HP)). simpl. tauto. }
  change (filter keep_file
            (sorted (file_names [ ("a.txt", File (ReadOk ca));
                                  ("b.txt", File (ReadOk cb));
                                  ("z.txt", File (ReadOk cz)) ])))
    with ["a.txt"; "b.txt"; "z.txt"].
  cbn [map flat_map]. unfold segments_of, o_read, o_relative, o_path, open_read.
  cbn [o_root o_file o_here]. rewrite La, Lb, Lz. reflexivity.
Qed.

(** C6 as stated fails here: with the root below a directory named
    build, a directory holding a.txt, b.txt and z.txt yields no block at
    all. *)
Lemma ordering_example_below_build_is_empty :
  collect_code "/home/u/build/proj" (Dir abz_listing) example_clock
               "/home/u/build/proj" =
  String.concat nl (preamble example_clock)
  /\ contains "a.txt"
       (collect_code "/home/u/build/proj" (Dir abz_listing) example_clock
                     "/home/u/build/proj") = false
  /\ contains "File: "
       (collect_code "/home/u/build/proj" (Dir abz_listing) example_clock
                     "/home/u/build/proj") = false.
Proof. repeat split; reflexivity. Qed.

(** C6, amended: the report is the join of what the directories
    contribute, one directory after the other, and within a directory
    the files opened are the kept names of [sorted(files)], in ascending
    order of Python's [str] comparison (names are compared as their
    UTF-8 bytes, which is the order of their code points).  So of two
    files of one directory the one with the smaller name is opened
    first, and its text stands in the report before the text of the
    other; what a directory contributes does not depend on the order in
    which it is listed.  A directory listing a.txt, b.txt and z.txt in
    any order, at a root whose path has no segment named .git, build,
    .gradle, .idea or vendor, yields a report that is the preamble and
    their three blocks in that order. *)
Theorem files_in_lexicographic_order :
  forall (cwd : string) (fs : node) (now : datetime) (start_path : string),
    collect_code cwd fs now start_path =
    String.concat nl
      (app (preamble now)
           (flat_map (fun v => flat_map (segments_of cwd start_path) (opened_in v))
                     (walk_yields start_path [] fs)))
    /\ (forall v,
          map o_file (opened_in v) =
          (if in_excluded_path (v_root v) then []
           else filter (fun f => negb (should_skip_file f))
                       (sorted (file_names (v_here v))))
          /\ StronglySorted str_le (map o_file (opened_in v))
          /\ (forall o, In o (opened_in v) ->
                        o_root o = v_root v /\ o_here o = v_here v))
    /\ (forall v o1 o2,
          In v (walk_yields start_path [] fs) ->
          In o1 (opened_in v) -> In o2 (opened_in v) ->
          o_file o1 <> o_file o2 ->
          str_le (o_file o1) (o_file o2) ->
          (exists pre mid post,
             opened_files start_path fs = app pre (o1 :: app mid (o2 :: post)))
          /\ (exists before between rest,
                collect_code cwd fs now start_path =
                before ++ nl
                ++ String.concat nl (segments_of cwd start_path o1)
                ++ between
                ++ String.concat nl (segments_of cwd start_path o2)
                ++ rest))
    /\ (forall xs, Permutation (sorted xs) xs /\ StronglySorted str_le (sorted xs))
    /\ (forall root chain es es',
          Permutation es es' -> NoDup (map fst es) ->
          flat_map (segments_of cwd start_path)
                   (opened_in {| v_root := root; v_chain := chain; v_here := es |}) =
          flat_map (segments_of cwd start_path)
                   (opened_in {| v_root := root; v_chain := chain; v_here := es' |}))
    /\ (forall entries ca cb cz,
          Permutation entries
            [ ("a.txt", File (ReadOk ca)); ("b.txt", File (ReadOk cb));
              ("z.txt", File (ReadOk cz)) ] ->
          in_excluded_path start_path = false ->
          collect_code cwd (Dir entries) now start_path =
          String.concat nl
            (app (preamble now)
               (app (block (relpath cwd (join start_path "a.txt") start_path) ca)
                  (app (block (relpath cwd (join start_path "b.txt") start_path) cb)
                       (block (relpath cwd (join start_path "z.txt") start_path) cz))))).
Proof.
  intros cwd fs now start_path. split; [| split; [| split; [| split; [| split]]]].
  - rewrite collect_code_unfold. unfold opened_files.
    now rewrite flat_map_flat_map.
  - intros v. split; [apply opened_in_names |]. split.
    + apply opened_in_sorted.
    + intros o Ho. apply opened_in_iff in Ho as (_ & _ & _ & ->). now split.
  - intros v o1 o2 Hv H1 H2 Hne Hle.
    destruct (sorted_split_order o_file (opened_in v) o1 o2
                (opened_in_sorted v) H1 H2 Hne Hle) as (l1 & l2 & l3 & E).
    apply in_split in Hv as (y1 & y2 & Hy).
    assert (Hsplit : opened_files start_path fs =
                     app (app (flat_map opened_in y1) l1)
                         (o1 :: app l2 (o2 :: app l3 (flat_map opened_in y2)))).
    { unfold opened_files. rewrite Hy, flat_map_app. cbn [flat_map].
      rewrite E, <- !app_assoc. cbn [app]. rewrite <- !app_assoc. reflexivity. }
    split; [eauto |].
    exact (report_holds_two cwd fs now start_path _ _ _ o1 o2 Hsplit).
  - intros xs. split; [apply sorted_perm | apply sorted_StronglySorted].
  - intros root chain es es'. apply listing_order_irrelevant.
  - intros entries ca cb cz HP Hexcl. unfold collect_code.
    now rewrite (abz_segments cwd start_path now entries ca cb cz HP Hexcl).
Qed.

Lemma files_in_lexicographic_order_witness :
  collect_code "/home/u/proj" (Dir abz_listing) example_clock "/home/u/proj" =
  String.concat nl
    (app (preamble example_clock)
         (app (block "a.txt" "A") (app (block "b.txt" "B") (block "z.txt" "Z")))).
Proof.
  destruct (files_in_lexicographic_order
              "/home/u/proj" (Dir abz_listing) example_clock "/home/u/proj")
    as (_ & _ & _ & _ & _ & H).
  apply (H abz_listing "A" "B" "Z").
  - unfold abz_listing.
    apply Permutation_cons_app with (l1 := [ _ ; _ ]) (l2 := []).
    reflexivity.
  - reflexivity.
Defined.

(** ** Blocks *)

Lemma disk_resolve_app (chain : list string) :
  forall d name entries child,
    disk_resolve d chain = Some (DiskDir entries) ->
    disk_lookup name entries = Some child ->
    disk_resolve d (app chain [name]) = Some child.
Proof.
  induction chain as [| c chain IH]; intros d name entries child H Hl; simpl in *.
  - injection H as ->. now rewrite Hl.
  - destruct d as [| es |]; try discriminate.
    destruct (disk_lookup c es) as [x |]; [| discriminate].
    now apply (IH x name entries).
Qed.

(** A file that reads well holds well-formed bytes, and what is read
    is their translation. *)
Lemma opened_text_from_disk (start_path : string) (d : disk) (o : opened)
      (content : string) :
  In o (opened_files start_path (mount start_path d)) ->
  o_read o = ReadOk content ->
  exists raw,
    disk_resolve d (app (o_chain o) [o_file o]) = Some (DiskFile (Bytes raw))
    /\ utf8_error raw = None
    /\ content = universal_newlines raw.
Proof.
  intros Ho Hread.
  apply opened_files_sound in Ho as (_ & Hroot & Hdir & _).
  rewrite resolve_mount in Hdir.
  destruct (disk_resolve d (o_chain o)) as [[s | entries |] |] eqn:Hd;
    try discriminate.
  cbn [option_map] in Hdir. rewrite mount_Dir in Hdir. injection Hdir as Hhere.
  unfold o_read, open_read in Hread. rewrite <- Hhere, lookup_mount in Hread.
  destruct (disk_lookup (o_file o) entries) as [[s | es |] |] eqn:Hl;
    cbn [option_map] in Hread; try rewrite mount_Dir in Hread;
    try discriminate.
  cbn [mount] in Hread. destruct s as [raw | message]; [| discriminate].
  unfold read_text in Hread.
  destruct (utf8_error raw) eqn:Hu; [discriminate |].
  injection Hread as <-.
  exists raw. repeat split; try assumption.
  now apply (disk_resolve_app _ _ _ entries).
Qed.

(** C7 as stated fails here: the four bytes a, CR, LF, b are read as
    the three characters a, LF, b. *)
Lemma crlf_file_is_not_copied_verbatim :
  utf8_error crlf_bytes = None
  /\ String.length crlf_bytes = 4
  /\ collect_segments "/home/u/proj" (mount "/home/u/proj" crlf_disk)
                      example_clock "/home/u/proj" =
     app (preamble example_clock)
         [ "File: dos.txt"; rule; "a" ++ nl ++ "b"; nl ++ rule ++ nl ++ nl ]
  /\ String.length ("a" ++ nl ++ "b") = 3
  /\ contains crlf_bytes
       (collect_code "/home/u/proj" (mount "/home/u/proj" crlf_disk)
                     example_clock "/home/u/proj") = false.
Proof. repeat split; reflexivity. Qed.

(** C7, amended: every file read successfully adds four segments to
    the buffer, in this order: "File: " and the path relative to the
    start, a rule of exactly 80 "=", the text [read()] returned, and a
    segment whose only non-empty line is again the rule of 80 "=".  The
    text is not the raw content: a file that can be opened reads
    successfully exactly when its bytes are well-formed UTF-8, and the
    third segment is those
    bytes with every CR LF and every remaining CR replaced by LF.  It
    equals the raw content exactly when the file holds no carriage
    return.  The four segments, joined by newlines, stand in the
    report. *)
Theorem file_block_layout :
  forall (cwd : string) (d : disk) (now : datetime) (start_path : string),
    collect_code cwd (mount start_path d) now start_path =
    String.concat nl
      (app (preamble now)
           (flat_map (segments_of cwd start_path)
                     (opened_files start_path (mount start_path d))))
    /\ (forall o content,
          o_read o = ReadOk content ->
          segments_of cwd start_path o =
          [ "File: " ++ relpath cwd (join (o_root o) (o_file o)) start_path;
            rule; content; nl ++ rule ++ nl ++ nl ])
    /\ (forall o content,
          In o (opened_files start_path (mount start_path d)) ->
          o_read o = ReadOk content ->
          exists raw,
            disk_resolve d (app (o_chain o) [o_file o]) =
            Some (DiskFile (Bytes raw))
            /\ utf8_error raw = None
            /\ content = universal_newlines raw)
    /\ (forall o raw,
          In o (opened_files start_path (mount start_path d)) ->
          disk_resolve d (app (o_chain o) [o_file o]) =
          Some (DiskFile (Bytes raw)) ->
          utf8_error raw = None ->
          segments_of cwd start_path o =
          [ "File: " ++ relpath cwd (join (o_root o) (o_file o)) start_path;
            rule; universal_newlines raw; nl ++ rule ++ nl ++ nl ]
          /\ exists before rest,
               collect_code cwd (mount start_path d) now start_path =
               before ++ nl
               ++ ("File: "
                   ++ relpath cwd (join (o_root o) (o_file o)) start_path
                   ++ nl ++ rule ++ nl ++ universal_newlines raw ++ nl
                   ++ nl ++ rule ++ nl ++ nl)
               ++ rest)
    /\ (forall raw,
          (universal_newlines raw = raw <->
           mentions carriage_return raw = false)
          /\ mentions carriage_return (universal_newlines raw) = false
          /\ String.length (universal_newlines raw) <= String.length raw)
    /\ (String.length rule = 80 /\ only_uses "=" rule = true)
    /\ split "010"%char (nl ++ rule ++ nl ++ nl) = [""; rule; ""; ""]
    /\ (isabs start_path = true -> valid_tree (mount start_path d) = true ->
        forall o, In o (opened_files start_path (mount start_path d)) ->
          o_root o = path_of start_path (o_chain o)
          /\ relpath cwd (join (o_root o) (o_file o)) start_path =
             String.concat sep (app (o_chain o) [o_file o])).
Proof.
  intros cwd d now start_path.
  split; [apply collect_code_unfold |].
  assert (Hok : forall o content,
            o_read o = ReadOk content ->
            segments_of cwd start_path o =
            [ "File: " ++ relpath cwd (join (o_root o) (o_file o)) start_path;
              rule; content; nl ++ rule ++ nl ++ nl ])
    by (intros o content H; unfold segments_of, block, o_relative, o_path;
        now rewrite H).
  split; [exact Hok |].
  split; [| split; [| split; [| split; [| split]]]].
  - intros o content. apply opened_text_from_disk.
  - intros o raw Ho Hres Hu.
    assert (Hread : o_read o = ReadOk (universal_newlines raw)).
    { rewrite (opened_reads_disk start_path d o (Bytes raw) Ho Hres).
      unfold read_text. now rewrite Hu. }
    split; [now apply Hok |].
    destruct (report_holds_segments cwd (mount start_path d) now start_path o Ho)
      as (before & rest & E).
    exists before, rest. rewrite E, (Hok o _ Hread).
    cbn [String.concat]. now rewrite !append_assoc.
  - intros raw. split; [apply universal_newlines_verbatim_iff |].
    split; [apply universal_newlines_clean | apply universal_newlines_length].
  - split; reflexivity.
  - reflexivity.
  - intros Habs Hv o Ho. split.
    + now apply opened_files_sound in Ho.
    + now apply (opened_relative cwd start_path (mount start_path d) o).
Qed.

Lemma file_block_layout_witness :
  segments_of "/home/u/proj" "/home/u/proj"
    {| o_root := "/home/u/proj"; o_chain := [];
       o_here := mount_listing "/home/u/proj"
                   [ ("dos.txt", DiskFile (Bytes crlf_bytes)) ];
       o_file := "dos.txt" |} =
  [ "File: dos.txt"; rule; "a" ++ nl ++ "b"; nl ++ rule ++ nl ++ nl ].
Proof.
  destruct (file_block_layout "/home/u/proj" crlf_disk example_clock "/home/u/proj")
    as (_ & _ & _ & H & _).
  destruct (H {| o_root := "/home/u/proj"; o_chain := [];
                 o_here := mount_listing "/home/u/proj"
                             [ ("dos.txt", DiskFile (Bytes crlf_bytes)) ];
                 o_file := "dos.txt" |} crlf_bytes) as [Hseg _].
  - vm_compute. tauto.
  - reflexivity.
  - reflexivity.
  - exact Hseg.
Defined.

(** ** The path-level check and the ancestors of the root *)

Lemma in_excluded_path_iff (root : string) :
  in_excluded_path root = true <->
  exists seg, In seg path_exclusions /\ In seg (split sep_char root).
Proof.
  unfold in_excluded_path. rewrite existsb_exists.
  split; intros [seg [H1 H2]]; exists seg; (split; [exact H1 |]);
    now apply str_in_iff.
Qed.

Lemma yields_below_excluded (start_path : string) (fs : node) (v : visit) :
  valid_tree fs = true ->
  in_excluded_path start_path = true ->
  In v (walk_yields start_path [] fs) ->
  in_excluded_path (v_root v) = true.
Proof.
  intros Hv Hex Hin.
  apply walk_yields_sound in Hin as (rest & _ & _ & Hroot & Hres).
  destruct (valid_tree_resolve _ _ _ Hv Hres) as [Hchain _].
  rewrite Hroot, in_excluded_path_of by assumption.
  now rewrite Hex.
Qed.

(** C9: the path-level check splits the whole [root] string, ancestors
    of the start included; so when the working directory's absolute path
    has a segment named .git, build, .gradle, .idea or vendor, every
    directory the walk yields is skipped, no file is opened, and the
    report holds the preamble only: no block and no error line. *)
Theorem excluded_ancestor_silences_report :
  forall (w : world) (current_dir seg : string),
    getcwd w = Returned current_dir ->
    valid_tree (tree w) = true ->
    In seg path_exclusions ->
    In seg (split sep_char current_dir) ->
    (forall v, In v (walk_yields current_dir [] (tree w)) ->
               in_excluded_path (v_root v) = true /\ opened_in v = [])
    /\ opened_files current_dir (tree w) = []
    /\ collect_segments current_dir (tree w) (clock w) current_dir =
       preamble (clock w)
    /\ (write_error w = None ->
        main w =
        Completed (output_file, String.concat nl (preamble (clock w)))
                  ("Code has been consolidated into " ++ output_file ++ nl)).
Proof.
  intros w current_dir seg Hcwd Hv Hseg Hsplit.
  assert (Hex : in_excluded_path current_dir = true)
    by (apply in_excluded_path_iff; eauto).
  assert (Hall : forall v, In v (walk_yields current_dir [] (tree w)) ->
                           in_excluded_path (v_root v) = true /\ opened_in v = []).
  { intros v Hin.
    pose proof (yields_below_excluded _ _ _ Hv Hex Hin) as H.
    split; [exact H |]. unfold opened_in. now rewrite H. }
  assert (Hnone : opened_files current_dir (tree w) = []).
  { unfold opened_files. apply flat_map_nil. intros v Hin. now apply Hall. }
  assert (Hseg' : collect_segments current_dir (tree w) (clock w) current_dir =
                  preamble (clock w)).
  { rewrite collect_segments_unfold, Hnone. cbn [flat_map]. apply app_nil_r. }
  repeat split; try assumption; try (now apply Hall).
  intros Hw. unfold main, collect_code. now rewrite Hcwd, Hw, Hseg'.
Qed.

Lemma excluded_ancestor_silences_report_witness :
  main {| getcwd := Returned "/home/u/build/proj"; clock := example_clock;
          tree := example_tree; write_error := None |} =
  Completed (output_file, String.concat nl (preamble example_clock))
            ("Code has been consolidated into " ++ output_file ++ nl).
Proof.
  apply (excluded_ancestor_silences_report
           {| getcwd := Returned "/home/u/build/proj"; clock := example_clock;
              tree := example_tree; write_error := None |}
           "/home/u/build/proj" "build").
  - reflexivity.
  - reflexivity.
  - simpl. tauto.
  - simpl. tauto.
  - reflexivity.
Defined.

(** ** The previous report *)

Lemma resolve_snoc_file (chain : list string) :
  forall n f r,
    resolve n (app chain [f]) = Some (File r) ->
    exists here, resolve n chain = Some (Dir here)
                 /\ lookup f here = Some (File r).
Proof.
  induction chain as [| d chain IH]; intros n f r H; simpl in H.
  - destruct n as [| entries |]; try discriminate.
    destruct (lookup f entries) as [child |] eqn:E; [| discriminate].
    simpl in H. injection H as ->. exists entries. now split.
  - destruct n as [| entries |]; try discriminate.
    destruct (lookup d entries) as [child |] eqn:E; [| discriminate].
    destruct (IH _ _ _ H) as (here & H1 & H2).
    exists here. simpl. rewrite E. now split.
Qed.

Lemma lookup_file_name (f : string) (here : list (string * node)) (r : read_result) :
  lookup f here = Some (File r) -> In f (file_names here).
Proof.
  intros H. apply file_names_In. exists (File r).
  split; [now apply lookup_In | reflexivity].
Qed.

(** C10 as stated fails here: the old report lies directly in the
    root, no directory below the root is excluded, and
    [should_skip_file] is false for it; yet with the root below a
    directory named build the new report is the preamble alone. *)
Lemma previous_report_below_build_is_left_out :
  should_skip_file output_file = false
  /\ resolve (tree rerun_world) [output_file] = Some (File (ReadOk "old report"))
  /\ main {| getcwd := Returned "/home/u/build/proj"; clock := example_clock;
             tree := tree rerun_world; write_error := None |} =
     Completed (output_file, String.concat nl (preamble example_clock))
               ("Code has been consolidated into " ++ output_file ++ nl)
  /\ contains "old report" (String.concat nl (preamble example_clock)) = false.
Proof. repeat split; reflexivity. Qed.

(** C10, amended: the name of the output file is in no exclusion set,
    so [should_skip_file] answers false for it; and for a root whose
    absolute path has no segment named .git, build, .gradle, .idea or
    vendor, a readable report left by an earlier run anywhere below the
    root, outside the directories either check excludes, is opened and
    the whole text read from it is put in a block of the buffer, so that
    the report [collect_code] returns, which is the text [main] writes,
    holds the block: header, rule, old text, rule. *)
Theorem previous_report_is_included :
  forall (cwd : string) (fs : node) (now : datetime) (start_path : string),
    should_skip_file output_file = false
    /\ ~ In output_file skip_files
    /\ (forall ext, In ext skip_extensions -> endswith output_file ext = false)
    /\ (forall chain old,
          isabs start_path = true ->
          valid_tree fs = true ->
          in_excluded_path start_path = false ->
          (forall d, In d chain ->
                     should_skip_directory d = false /\ ~ In d path_exclusions) ->
          resolve fs (app chain [output_file]) = Some (File (ReadOk old)) ->
          (exists before rest,
             collect_segments cwd fs now start_path =
             app before
                 (app (block (String.concat sep (app chain [output_file])) old)
                      rest))
          /\ (exists before rest,
                collect_code cwd fs now start_path =
                before ++ nl
                ++ ("File: " ++ String.concat sep (app chain [output_file])
                    ++ nl ++ rule ++ nl ++ old ++ nl ++ nl ++ rule ++ nl ++ nl)
                ++ rest))
    /\ (forall w chain old,
          getcwd w = Returned start_path -> tree w = fs ->
          write_error w = None ->
          isabs start_path = true ->
          valid_tree fs = true ->
          in_excluded_path start_path = false ->
          (forall d, In d chain ->
                     should_skip_directory d = false /\ ~ In d path_exclusions) ->
          resolve fs (app chain [output_file]) = Some (File (ReadOk old)) ->
          exists before rest,
            main w =
            Completed
              (output_file,
               before ++ nl
               ++ ("File: " ++ String.concat sep (app chain [output_file])
                   ++ nl ++ rule ++ nl ++ old ++ nl ++ nl ++ rule ++ nl ++ nl)
               ++ rest)
              ("Code has been consolidated into " ++ output_file ++ nl)).
Proof.
  intros cwd fs now start_path.
  assert (Hopened : forall chain old,
            isabs start_path = true ->
            valid_tree fs = true ->
            in_excluded_path start_path = false ->
            (forall d, In d chain ->
                       should_skip_directory d = false /\ ~ In d path_exclusions) ->
            resolve fs (app chain [output_file]) = Some (File (ReadOk old)) ->
            exists o,
              In o (opened_files start_path fs)
              /\ forall cwd',
                   segments_of cwd' start_path o =
                   block (String.concat sep (app chain [output_file])) old).
  { intros chain old Habs Hv Hex Hchain Hres.
    destruct (resolve_snoc_file _ _ _ _ Hres) as (here & Hdir & Hfile).
    destruct (valid_tree_resolve _ _ _ Hv Hdir) as [Hvalid _].
    assert (Hkeep : Forall (fun d => should_skip_directory d = false) chain).
    { apply Forall_forall. intros d Hd. now apply Hchain. }
    assert (Hpath : in_excluded_path (path_of start_path chain) = false).
    { rewrite in_excluded_path_of by assumption. rewrite Hex. cbn [orb].
      destruct (existsb (fun d => str_in d path_exclusions) chain) eqn:E;
        [| reflexivity].
      apply existsb_exists in E as (d & Hd & Hin).
      apply str_in_iff in Hin. now destruct (Hchain d Hd). }
    pose proof (opened_files_complete start_path fs chain here output_file
                  Hdir Hkeep Hpath (lookup_file_name _ _ _ Hfile) eq_refl)
      as Hin.
    eexists. split; [exact Hin |]. intros cwd'.
    pose proof (opened_relative cwd' start_path fs _ Habs Hv Hin) as Hrel.
    unfold segments_of, o_read, open_read. rewrite Hrel. simpl.
    now rewrite Hfile. }
  assert (Htext : forall cwd' now' chain old,
            isabs start_path = true ->
            valid_tree fs = true ->
            in_excluded_path start_path = false ->
            (forall d, In d chain ->
                       should_skip_directory d = false /\ ~ In d path_exclusions) ->
            resolve fs (app chain [output_file]) = Some (File (ReadOk old)) ->
            exists before rest,
              collect_code cwd' fs now' start_path =
              before ++ nl
              ++ ("File: " ++ String.concat sep (app chain [output_file])
                  ++ nl ++ rule ++ nl ++ old ++ nl ++ nl ++ rule ++ nl ++ nl)
              ++ rest).
  { intros cwd' now' chain old Habs Hv Hex Hchain Hres.
    destruct (Hopened chain old Habs Hv Hex Hchain Hres) as (o & Hin & Hseg).
    destruct (report_holds_segments cwd' fs now' start_path o Hin)
      as (before & rest & E).
    exists before, rest. rewrite E, Hseg, block_text.
    now rewrite !append_assoc. }
  split; [reflexivity |]. split; [| split; [| split]].
  - simpl. intros [H | []]. discriminate.
  - intros ext Hext.
    assert (Hall : forallb (fun e => negb (endswith output_file e))
                           skip_extensions = true) by reflexivity.
    rewrite forallb_forall in Hall. apply negb_true_iff. now apply Hall.
  - intros chain old Habs Hv Hex Hchain Hres. split.
    + destruct (Hopened chain old Habs Hv Hex Hchain Hres) as (o & Hin & Hseg).
      destruct (In_flat_map_split (segments_of cwd start_path) _ _ Hin)
        as (pre & post & Hsplit).
      exists (app (preamble now) pre), post.
      rewrite collect_segments_unfold, Hsplit, <- app_assoc.
      now rewrite Hseg.
    + now apply Htext.
  - intros w chain old Hcwd Htree Hw Habs Hv Hex Hchain Hres.
    destruct (Htext start_path (clock w) chain old Habs Hv Hex Hchain Hres)
      as (before & rest & E).
    exists before, rest. unfold main. now rewrite Hcwd, Hw, Htree, E.
Qed.

Lemma previous_report_is_included_witness :
  exists before rest,
    main rerun_world =
    Completed
      (output_file,
       before ++ nl
       ++ ("File: " ++ output_file
           ++ nl ++ rule ++ nl ++ "old report" ++ nl ++ nl ++ rule ++ nl ++ nl)
       ++ rest)
      ("Code has been consolidated into " ++ output_file ++ nl).
Proof.
  destruct (previous_report_is_included "/home/u/proj" (tree rerun_world)
              example_clock "/home/u/proj") as (_ & _ & _ & _ & H).
  apply (H rerun_world [] "old report"); try reflexivity.
  intros d [].
Defined.

(** ** The timestamp *)

Lemma only_uses_app (alphabet x y : string) :
  only_uses alphabet (x ++ y) = only_uses alphabet x && only_uses alphabet y.
Proof.
  induction x as [| c x IH]; simpl; [reflexivity |].
  now rewrite IH, andb_assoc.
Qed.

Lemma decimal_alphabet (n : nat) :
  only_uses timestamp_alphabet (decimal n) = true.
Proof.
  unfold decimal. generalize (Nat.to_uint n). intros d.
  induction d as [| d IH | d IH | d IH | d IH | d IH | d IH | d IH | d IH
                  | d IH | d IH ];
    cbn [NilEmpty.string_of_uint only_uses]; try rewrite IH; reflexivity.
Qed.

Lemma str_repeat_alphabet (alphabet : string) (c : ascii) (n : nat) :
  mentions c alphabet = true -> only_uses alphabet (str_repeat c n) = true.
Proof.
  intros H. induction n as [| n IH]; simpl; [reflexivity | now rewrite H, IH].
Qed.

Lemma zero_padded_alphabet (w n : nat) :
  only_uses timestamp_alphabet (zero_padded w n) = true.
Proof.
  unfold zero_padded.
  rewrite only_uses_app, decimal_alphabet, andb_true_r.
  now apply str_repeat_alphabet.
Qed.

(** [str(datetime)] consists of digits, dashes, colons, a space and a
    dot. *)
Lemma str_datetime_alphabet (dt : datetime) :
  only_uses timestamp_alphabet (str_datetime dt) = true.
Proof.
  unfold str_datetime.
  repeat (rewrite only_uses_app; apply andb_true_iff; split);
    try apply zero_padded_alphabet; try reflexivity.
  destruct (Nat.eqb (microsecond dt) 0); [reflexivity |].
  rewrite only_uses_app, zero_padded_alphabet. reflexivity.
Qed.

Lemma only_uses_mentions (alphabet s : string) (c : ascii) :
  only_uses alphabet s = true ->
  mentions c alphabet = false ->
  mentions c s = false.
Proof.
  intros Hs Hc. induction s as [| a s IH]; simpl in *; [reflexivity |].
  apply andb_true_iff in Hs as [Ha Hs].
  rewrite (IH Hs), orb_false_r.
  destruct (Ascii.eqb a c) eqn:E; [| reflexivity].
  apply Ascii.eqb_eq in E. subst a. congruence.
Qed.

Lemma after_first_line_app (pre rest : string) :
  mentions "010"%char pre = false ->
  after_first_line (pre ++ nl ++ rest) = rest.
Proof.
  induction pre as [| a pre IH]; simpl; intros H.
  - reflexivity.
  - apply orb_false_iff in H as [Ha Hp]. rewrite Ha. now apply IH.
Qed.

(** The report is the timestamp line followed by text that does not
    depend on the clock. *)
Lemma collect_code_lines (cwd : string) (fs : node) (now : datetime)
      (start_path : string) :
  collect_code cwd fs now start_path =
  ("Code consolidated on: " ++ str_datetime now) ++ nl
  ++ (nl ++ String.concat nl
        (("Project structure and contents:" ++ nl)
           :: (rule ++ nl ++ nl)
           :: flat_map (segments_of cwd start_path)
                       (opened_files start_path fs))).
Proof.
  unfold collect_code. rewrite collect_segments_unfold.
  unfold preamble. cbn [app].
  change (String.concat nl (?a :: ?b :: ?l))
    with (a ++ nl ++ String.concat nl (b :: l)).
  now rewrite !append_assoc.
Qed.

Lemma timestamp_line_clean (now : datetime) :
  mentions "010"%char ("Code consolidated on: " ++ str_datetime now) = false.
Proof.
  rewrite mentions_app. apply orb_false_iff. split; [reflexivity |].
  apply (only_uses_mentions timestamp_alphabet);
    [apply str_datetime_alphabet | reflexivity].
Qed.

(** ** Reproducibility *)

(** C8: two runs of the collection over the same tree, at whatever two
    clock readings, give reports that are equal once the first line, the
    timestamp line, is dropped; the clock reading appears in that line
    and nowhere else. *)
Theorem report_body_independent_of_clock :
  forall (cwd : string) (fs : node) (start_path : string) (now1 now2 : datetime),
    after_first_line (collect_code cwd fs now1 start_path) =
    after_first_line (collect_code cwd fs now2 start_path)
    /\ collect_code cwd fs now1 start_path =
       "Code consolidated on: " ++ str_datetime now1 ++ nl
       ++ after_first_line (collect_code cwd fs now1 start_path)
    /\ mentions "010"%char (str_datetime now1) = false.
Proof.
  intros cwd fs start_path now1 now2.
  assert (Hbody : forall now,
    after_first_line (collect_code cwd fs now start_path) =
    nl ++ String.concat nl
        (("Project structure and contents:" ++ nl)
           :: (rule ++ nl ++ nl)
           :: flat_map (segments_of cwd start_path)
                       (opened_files start_path fs))).
  { intros now. rewrite collect_code_lines.
    apply after_first_line_app, timestamp_line_clean. }
  split; [now rewrite !Hbody |]. split.
  - rewrite Hbody. rewrite collect_code_lines. now rewrite !append_assoc.
  - apply (only_uses_mentions timestamp_alphabet);
      [apply str_datetime_alphabet | reflexivity].
Qed.

(** ** Fatal errors *)

(** C3 as stated fails here: the run of [unlistable_world] ends
    normally, because [os.walk] swallows the failure to list the root. *)
Lemma unlistable_root_exits_zero :
  main unlistable_world =
  Completed (output_file, String.concat nl (preamble example_clock))
            ("Code has been consolidated into " ++ output_file ++ nl)
  /\ exit_status (main unlistable_world) = 0.
Proof. split; reflexivity. Qed.

(** C3, amended: an exception of [os.getcwd()] or of the final write is
    not caught: it reaches the top level and the exit status is 1.  A
    root that cannot be listed is no such error: the walk yields
    nothing, the report is the preamble alone and the run, when the
    write succeeds, exits with status 0. *)
Theorem getcwd_and_write_errors_are_fatal :
  forall (w : world),
    (forall e, getcwd w = Raised e ->
               main w = Uncaught e /\ exit_status (main w) = 1)
    /\ (forall d e, getcwd w = Returned d -> write_error w = Some e ->
                    main w = Uncaught e /\ exit_status (main w) = 1)
    /\ (forall d, getcwd w = Returned d -> tree w = Unlistable ->
                  write_error w = None ->
                  main w =
                  Completed (output_file, String.concat nl (preamble (clock w)))
                            ("Code has been consolidated into " ++ output_file ++ nl)
                  /\ exit_status (main w) = 0).
Proof.
  intros w. unfold main. split; [| split].
  - intros e H. now rewrite H.
  - intros d e H1 H2. now rewrite H1, H2.
  - intros d H1 H2 H3. rewrite H1, H2, H3. split; reflexivity.
Qed.

Lemma getcwd_and_write_errors_are_fatal_witness :
  main readonly_world =
  Uncaught (Exception "PermissionError"
              "[Errno 13] Permission denied: 'project_code_consolidated.txt'")
  /\ exit_status (main readonly_world) = 1.
Proof.
  destruct (getcwd_and_write_errors_are_fatal readonly_world)
    as (_ & H & _).
  apply (H "/home/u/proj"); reflexivity.
Defined.

(** ** Substring search across the timestamp *)

Lemma startswith_pattern_prefix (q r : string) :
  forall s, startswith s (q ++ r) = true -> startswith s q = true.
Proof.
  induction q as [| c q IH]; intros s H; [reflexivity |].
  destruct s as [| a s]; simpl in *; [discriminate |].
  apply andb_true_iff in H as [H1 H2]. rewrite H1. now apply IH.
Qed.

Lemma contains_cons (q : string) (a : ascii) (s : string) :
  contains q (String a s) = startswith (String a s) q || contains q s.
Proof. simpl. destruct (startswith (String a s) q); reflexivity. Qed.

Lemma contains_pattern_prefix (q r s : string) :
  contains (q ++ r) s = true -> contains q s = true.
Proof.
  induction s as [| a s IH].
  - simpl. destruct (startswith "" (q ++ r)) eqn:E; [| discriminate].
    intros _. now rewrite (startswith_pattern_prefix q r "" E).
  - rewrite !contains_cons. intros H. apply orb_true_iff in H as [H | H].
    + now rewrite (startswith_pattern_prefix q r _ H).
    + rewrite (IH H). apply orb_true_r.
Qed.

Lemma contains_app_right (q x s : string) :
  contains q s = true -> contains q (x ++ s) = true.
Proof.
  intros H. induction x as [| a x IH]; [exact H |].
  simpl append. rewrite contains_cons, IH. apply orb_true_r.
Qed.

Lemma foreign_head (alphabet : string) (c a : ascii) :
  mentions c alphabet = false -> mentions a alphabet = true ->
  Ascii.eqb c a = false.
Proof.
  intros Hc Ha. destruct (Ascii.eqb c a) eqn:E; [| reflexivity].
  apply Ascii.eqb_eq in E. subst. congruence.
Qed.

Lemma startswith_foreign (alphabet ts tail : string) :
  only_uses alphabet ts = true ->
  forall head q,
    avoids alphabet q = true ->
    startswith (head ++ ts ++ tail) q = true ->
    startswith (head ++ tail) q = true.
Proof.
  intros Hts head. induction head as [| h head IH]; intros q Hq H.
  - destruct q as [| c q]; [reflexivity |].
    destruct ts as [| a ts]; [exact H |].
    simpl in Hq, Hts, H.
    apply andb_true_iff in Hq as [Hc _]. apply negb_true_iff in Hc.
    apply andb_true_iff in Hts as [Ha _].
    now rewrite (foreign_head alphabet c a Hc Ha) in H.
  - destruct q as [| c q]; [reflexivity |].
    simpl in *. apply andb_true_iff in Hq as [_ Hq].
    apply andb_true_iff in H as [H1 H2].
    rewrite H1. now apply IH.
Qed.

(** A pattern made of characters foreign to the timestamp cannot
    overlap it: an occurrence in the report is an occurrence in the
    report with the timestamp cut out. *)
Lemma contains_foreign (alphabet ts tail q : string) :
  only_uses alphabet ts = true ->
  avoids alphabet q = true ->
  forall head,
    contains q (head ++ ts ++ tail) = true ->
    contains q (head ++ tail) = true.
Proof.
  intros Hts Hq head. induction head as [| h head IH].
  - simpl append. clear - Hts Hq.
    induction ts as [| a ts IH]; [trivial |].
    simpl in Hts. apply andb_true_iff in Hts as [Ha Hts].
    simpl append. rewrite contains_cons. intros H.
    apply orb_true_iff in H as [H | H]; [| now apply IH].
    destruct q as [| c q]; [destruct tail; reflexivity |].
    simpl in Hq, H. apply andb_true_iff in Hq as [Hc _].
    apply negb_true_iff in Hc.
    now rewrite (foreign_head alphabet c a Hc Ha) in H.
  - simpl append. rewrite !contains_cons. intros H.
    apply orb_true_iff in H as [H | H].
    + change (String h (head ++ ts ++ tail)) with ((String h head) ++ ts ++ tail) in H.
      apply (startswith_foreign alphabet ts tail Hts (String h head) q Hq) in H.
      simpl append in H. now rewrite H.
    + rewrite (IH H). apply orb_true_r.
Qed.

(** ** The end-to-end example *)

Lemma example_opened (start_path : string) (entries : list (string * node)) :
  in_excluded_path start_path = false ->
  Permutation entries example_listing ->
  opened_files start_path (Dir entries) =
  [ {| o_root := join start_path "src"; o_chain := ["src"];
       o_here := [ ("main.txt", File (ReadOk "hello")) ];
       o_file := "main.txt" |} ].
Proof.
  intros Hexcl HP. unfold opened_files. rewrite walk_yields_Dir.
  assert (Hdirs : filter keep_dir (dir_names entries) = ["src"]).
  { apply Permutation_length_1_inv.
    apply Permutation_sym.
    exact (Permutation_filter_same keep_dir _ _ (dir_names_perm _ _ HP)). }
  assert (Hnd : NoDup (map fst entries)).
  { apply (Permutation_NoDup (Permutation_sym (Permutation_map fst HP))).
    simpl. repeat constructor; simpl; intuition discriminate. }
  assert (Hsrc : lookup "src" entries =
                 Some (Dir [ ("main.txt", File (ReadOk "hello")) ])).
  { apply lookup_NoDup; [exact Hnd |].
    apply (Permutation_in _ (Permutation_sym HP)). now left. }
  assert (Hfiles : filter keep_file (sorted (file_names entries)) = []).
  { now rewrite (sorted_of_perm _ _ (file_names_perm _ _ HP)). }
  rewrite Hdirs. cbn [flat_map]. rewrite Hsrc, walk_yields_Dir.
  cbn [dir_names file_names filter map snd is_dir flat_map app].
  unfold opened_in at 1. cbn [v_root v_here v_chain].
  rewrite Hexcl, Hfiles. cbn [map app].
  unfold opened_in. cbn [v_root v_here v_chain].
  rewrite in_excluded_path_join, Hexcl by (discriminate || reflexivity).
  rewrite app_nil_r. reflexivity.
Qed.

Lemma example_segments (cwd start_path : string) (now : datetime)
      (entries : list (string * node)) :
  isabs start_path = true ->
  in_excluded_path start_path = false ->
  Permutation entries example_listing ->
  collect_segments cwd (Dir entries) now start_path =
  app (preamble now) (block "src/main.txt" "hello").
Proof.
  intros Habs Hexcl HP.
  rewrite collect_segments_unfold, (example_opened _ _ Hexcl HP).
  cbn [flat_map]. rewrite app_nil_r. f_equal.
  unfold segments_of, o_relative, o_path. cbn [o_root o_file].
  change (join start_path "src") with (path_of start_path ["src"]).
  rewrite (relpath_chain cwd start_path ["src"] "main.txt" Habs)
    by (repeat constructor).
  reflexivity.
Qed.

(** C1 as stated fails here: with the root below a directory named
    build, the example tree gives a report without any block. *)
Lemma example_below_build_has_no_block :
  collect_segments "/home/u/build/proj" example_tree example_clock
                   "/home/u/build/proj" = preamble example_clock
  /\ contains "src/main.txt"
       (collect_code "/home/u/build/proj" example_tree example_clock
                     "/home/u/build/proj") = false.
Proof. split; reflexivity. Qed.

(** C1, amended: for a run whose root holds exactly src/main.txt
    ("hello"), build/ignored.txt ("x") and Cargo.lock ("y"), listed in
    any order, and whose absolute root path has no segment named .git,
    build, .gradle, .idea or vendor, the buffer is the preamble followed
    by the one block of src/main.txt with content "hello"; the report
    contains that block and mentions neither ignored.txt nor
    Cargo.lock. *)
Theorem end_to_end_example :
  forall (cwd start_path : string) (now : datetime)
         (entries : list (string * node)),
    isabs start_path = true ->
    in_excluded_path start_path = false ->
    Permutation entries example_listing ->
    collect_segments cwd (Dir entries) now start_path =
    app (preamble now) [ "File: src/main.txt"; rule; "hello"; nl ++ rule ++ nl ++ nl ]
    /\ contains ("File: src/main.txt" ++ nl ++ rule ++ nl ++ "hello" ++ nl
                 ++ nl ++ rule ++ nl)
                (collect_code cwd (Dir entries) now start_path) = true
    /\ contains "ignored.txt" (collect_code cwd (Dir entries) now start_path) = false
    /\ contains "Cargo.lock" (collect_code cwd (Dir entries) now start_path) = false.
Proof.
  intros cwd start_path now entries Habs Hexcl HP.
  pose proof (example_segments cwd start_path now entries Habs Hexcl HP) as Hseg.
  split; [exact Hseg |].
  assert (Hcode :
    collect_code cwd (Dir entries) now start_path =
    "Code consolidated on: " ++ str_datetime now
    ++ String.concat nl
         ("" :: "" :: ("Project structure and contents:" ++ nl)
             :: (rule ++ nl ++ nl) :: block "src/main.txt" "hello")).
  { unfold collect_code. rewrite Hseg. unfold preamble. cbn [app].
    change (String.concat nl (?a :: ?b :: ?l))
      with (a ++ nl ++ String.concat nl (b :: l)).
    now rewrite !append_assoc. }
  rewrite Hcode.
  split; [| split].
  - rewrite <- (append_assoc "Code consolidated on: " (str_datetime now)).
    apply contains_app_right. reflexivity.
  - match goal with |- ?c = false => destruct c eqn:E end; [| reflexivity].
    apply (contains_pattern_prefix "ignored" ".txt") in E.
    apply (contains_foreign timestamp_alphabet) in E;
      [ discriminate E | apply str_datetime_alphabet | reflexivity ].
  - match goal with |- ?c = false => destruct c eqn:E end; [| reflexivity].
    apply (contains_pattern_prefix "Cargo" ".lock") in E.
    apply (contains_foreign timestamp_alphabet) in E;
      [ discriminate E | apply str_datetime_alphabet | reflexivity ].
Qed.

Lemma end_to_end_example_witness :
  collect_segments "/home/u/proj" example_tree example_clock "/home/u/proj" =
  app (preamble example_clock)
      [ "File: src/main.txt"; rule; "hello"; nl ++ rule ++ nl ++ nl ]
  /\ contains "ignored.txt"
       (collect_code "/home/u/proj" example_tree example_clock "/home/u/proj")
     = false
  /\ contains "Cargo.lock"
       (collect_code "/home/u/proj" example_tree example_clock "/home/u/proj")
     = false.
Proof.
  destruct (end_to_end_example "/home/u/proj" "/home/u/proj" example_clock
              example_listing eq_refl eq_refl (Permutation_refl _))
    as (H1 & _ & H3 & H4).
  split; [exact H1 | split; [exact H3 | exact H4]].
Defined.

(** * Further properties of the code *)

(** ** Exactly which files are opened *)

Lemma chain_clear_iff (start_path : string) (chain : list string) :
  Forall (fun d => valid_name d = true) chain ->
  (in_excluded_path (path_of start_path chain) = false <->
   in_excluded_path start_path = false
   /\ forall d, In d chain -> ~ In d path_exclusions).
Proof.
  intros Hv. rewrite in_excluded_path_of by assumption.
  rewrite orb_false_iff. split; intros [H1 H2]; (split; [exact H1 |]).
  - intros d Hd Hin. apply str_in_iff in Hin.
    assert (E : existsb (fun d => str_in d path_exclusions) chain = true)
      by (apply existsb_exists; eauto).
    congruence.
  - destruct (existsb (fun d => str_in d path_exclusions) chain) eqn:E;
      [| reflexivity].
    apply existsb_exists in E as (d & Hd & Hin).
    apply str_in_iff in Hin. now destruct (H2 d Hd).
Qed.

(** X1: in a well-formed tree, a file listed in the directory reached
    through [chain] is opened, and so contributes its segments to the
    buffer, exactly when the start path has no segment of the path-level
    list, no directory name on the chain is in either exclusion list,
    and the file name is not skipped. *)
Theorem file_opened_iff :
  forall (cwd start_path : string) (fs : node) (now : datetime)
         (chain : list string) (here : list (string * node)) (f : string),
    valid_tree fs = true ->
    resolve fs chain = Some (Dir here) ->
    In f (file_names here) ->
    (In {| o_root := path_of start_path chain; o_chain := chain;
           o_here := here; o_file := f |}
        (opened_files start_path fs)
     <->
     in_excluded_path start_path = false
     /\ (forall d, In d chain ->
           should_skip_directory d = false /\ ~ In d path_exclusions)
     /\ should_skip_file f = false)
    /\ (In {| o_root := path_of start_path chain; o_chain := chain;
              o_here := here; o_file := f |}
           (opened_files start_path fs) ->
        exists before rest,
          collect_segments cwd fs now start_path =
          app before
              (app (segments_of cwd start_path
                      {| o_root := path_of start_path chain; o_chain := chain;
                         o_here := here; o_file := f |})
                   rest)).
Proof.
  intros cwd start_path fs now chain here f Hv Hres Hf.
  destruct (valid_tree_resolve _ _ _ Hv Hres) as [Hchain _].
  split.
  - split.
    + intros Hin. apply opened_files_sound in Hin as (H1 & _ & _ & H4 & H5 & _).
      simpl in *. apply (chain_clear_iff start_path chain Hchain) in H4 as [H4 H4'].
      rewrite Forall_forall in H1.
      split; [exact H4 |]. split; [| exact H5].
      intros d Hd. split; [now apply H1 | now apply H4'].
    + intros (H1 & H2 & H3).
      apply opened_files_complete; try assumption.
      * apply Forall_forall. intros d Hd. now apply H2.
      * apply (chain_clear_iff start_path chain Hchain). split; [exact H1 |].
        intros d Hd. now apply H2.
  - intros Hin.
    destruct (In_flat_map_split (segments_of cwd start_path) _ _ Hin)
      as (pre & post & Hsplit).
    exists (app (preamble now) pre), post.
    now rewrite collect_segments_unfold, Hsplit, <- app_assoc.
Qed.

Lemma file_opened_iff_witness :
  In {| o_root := "/home/u/proj/src"; o_chain := ["src"];
        o_here := [ ("main.txt", File (ReadOk "hello")) ];
        o_file := "main.txt" |}
     (opened_files "/home/u/proj" example_tree)
  /\ ~ In {| o_root := "/home/u/proj/build"; o_chain := ["build"];
             o_here := [ ("ignored.txt", File (ReadOk "x")) ];
             o_file := "ignored.txt" |}
          (opened_files "/home/u/proj" example_tree).
Proof.
  split.
  - apply (proj1 (file_opened_iff "/home/u/proj" "/home/u/proj" example_tree
                    example_clock ["src"]
                    [ ("main.txt", File (ReadOk "hello")) ] "main.txt"
                    eq_refl eq_refl (or_introl eq_refl))).
    split; [reflexivity |]. split; [| reflexivity].
    intros d [<- | []]. split; [reflexivity |].
    simpl. intuition discriminate.
  - intros Hin.
    apply (proj1 (file_opened_iff "/home/u/proj" "/home/u/proj" example_tree
                    example_clock ["build"]
                    [ ("ignored.txt", File (ReadOk "x")) ] "ignored.txt"
                    eq_refl eq_refl (or_introl eq_refl))) in Hin.
    destruct Hin as (_ & H & _).
    destruct (H "build" (or_introl eq_refl)) as [H' _]. discriminate H'.
Defined.

(** ** Directories the walk enters without reporting *)

(** X2: the two exclusion lists differ.  A directory named .git or
    vendor is not pruned: the walk yields it and every directory below
    it that is not pruned; but in a well-formed tree the loop opens
    nothing in a directory whose chain holds a name of the path-level
    list, so nothing below .git or vendor reaches the report. *)
Theorem path_excluded_trees_walked_but_silent :
  forall (start_path : string) (fs : node),
    valid_tree fs = true ->
    (should_skip_directory ".git" = false
     /\ should_skip_directory "vendor" = false)
    /\ (forall chain here,
          resolve fs chain = Some (Dir here) ->
          (forall d, In d chain -> should_skip_directory d = false) ->
          In {| v_root := path_of start_path chain; v_chain := chain;
                v_here := here |}
             (walk_yields start_path [] fs))
    /\ (forall v d, In v (walk_yields start_path [] fs) ->
                    In d (v_chain v) -> In d path_exclusions ->
                    opened_in v = [])
    /\ (forall o d, In o (opened_files start_path fs) ->
                    In d (o_chain o) -> ~ In d path_exclusions).
Proof.
  intros start_path fs Hv. split; [split; reflexivity |]. split; [| split].
  - intros chain here Hres Hkeep.
    apply (walk_yields_complete chain fs start_path [] here Hres).
    now apply Forall_forall.
  - intros v d Hin Hd Hex.
    apply walk_yields_sound in Hin as (rest & H1 & _ & H3 & H4).
    simpl in H1. subst rest.
    destruct (valid_tree_resolve _ _ _ Hv H4) as [Hchain _].
    unfold opened_in. rewrite H3, in_excluded_path_of by assumption.
    assert (E : existsb (fun d => str_in d path_exclusions) (v_chain v) = true).
    { apply existsb_exists. exists d. split; [exact Hd | now apply str_in_iff]. }
    rewrite E, orb_true_r. reflexivity.
  - intros o d Hin Hd Hex.
    apply opened_files_sound in Hin as (_ & H2 & H3 & H4 & _).
    destruct (valid_tree_resolve _ _ _ Hv H3) as [Hchain _].
    rewrite H2 in H4.
    apply (chain_clear_iff start_path _ Hchain) in H4 as [_ H4].
    now apply (H4 d Hd).
Qed.

Lemma path_excluded_trees_walked_but_silent_witness :
  In {| v_root := path_of "/home/u/proj" [".git"; "hooks"];
        v_chain := [".git"; "hooks"];
        v_here := [ ("pre-commit", File (ReadOk "#!/bin/sh")) ] |}
     (walk_yields "/home/u/proj" [] vcs_tree)
  /\ map o_file (opened_files "/home/u/proj" vcs_tree) = ["main.txt"].
Proof.
  destruct (path_excluded_trees_walked_but_silent "/home/u/proj" vcs_tree eq_refl)
    as (_ & H & _).
  split; [| reflexivity].
  apply (H [".git"; "hooks"] [ ("pre-commit", File (ReadOk "#!/bin/sh")) ] eq_refl).
  intros d [<- | [<- | []]]; reflexivity.
Defined.

(** ** How the file filter matches *)

Lemma append_suffix_inside (a b c d : string) :
  a ++ b = c ++ d -> String.length d <= String.length b ->
  exists e, b = e ++ d.
Proof.
  revert c. induction a as [| x a IH]; intros c H Hlen; simpl in H.
  - now exists c.
  - destruct c as [| y c]; simpl in H.
    + subst d. simpl in Hlen. rewrite length_append in Hlen. lia.
    + injection H as _ H. now apply (IH c).
Qed.

(** A suffix no longer than [s] is decided by [s] alone. *)
Lemma endswith_app_long (p s suffix : string) :
  String.length suffix <= String.length s ->
  endswith (p ++ s) suffix = endswith s suffix.
Proof.
  intros Hlen.
  destruct (endswith s suffix) eqn:E.
  - apply endswith_iff in E as [stem ->]. apply endswith_iff.
    exists (p ++ stem). now rewrite append_assoc.
  - apply endswith_false_iff. intros [stem H].
    apply append_suffix_inside in H as [e He]; [| exact Hlen].
    apply endswith_false_iff in E. apply E. now exists e.
Qed.

Lemma endswith_app_left (p name ext : string) :
  endswith name ext = true -> endswith (p ++ name) ext = true.
Proof.
  intros H. apply endswith_iff in H as [stem ->]. apply endswith_iff.
  exists (p ++ stem). now rewrite append_assoc.
Qed.

(** X3: the extensions match as suffixes, the lock-file name as a whole.
    Whatever is put in front of a name that ends with a listed extension,
    the result is skipped; but a name that ends with Cargo.lock is
    skipped only when it is Cargo.lock itself, so my-Cargo.lock or
    Cargo.lock preceded by anything else is included in the report. *)
Theorem extensions_by_suffix_lock_file_exact :
  forall (front : string),
    (forall name ext,
        In ext skip_extensions -> endswith name ext = true ->
        should_skip_file (front ++ name) = true)
    /\ (should_skip_file (front ++ "Cargo.lock") = true <-> front = "").
Proof.
  intros front. split.
  - intros name ext Hext Hend. unfold should_skip_file.
    apply orb_true_iff. left. apply existsb_exists.
    exists ext. split; [exact Hext | now apply endswith_app_left].
  - split; [| intros ->; reflexivity].
    unfold should_skip_file. intros H. apply orb_true_iff in H as [H | H].
    + apply existsb_exists in H as (ext & Hext & Hend).
      rewrite endswith_app_long in Hend.
      * assert (Hall : forallb (fun e => negb (endswith "Cargo.lock" e))
                               skip_extensions = true) by reflexivity.
        rewrite forallb_forall in Hall. specialize (Hall ext Hext).
        rewrite Hend in Hall. discriminate.
      * assert (Hall : forallb (fun e => Nat.leb (String.length e) 10)
                               skip_extensions = true) by reflexivity.
        rewrite forallb_forall in Hall. specialize (Hall ext Hext).
        now apply Nat.leb_le in Hall.
    + apply str_in_iff in H. destruct H as [H | []].
      apply (f_equal String.length) in H. rewrite length_append in H.
      simpl in H. destruct front; [reflexivity | simpl in H; lia].
Qed.

(** ** Running again in the same directory *)

Lemma startswith_app_self (x r : string) : startswith (x ++ r) x = true.
Proof.
  induction x as [| c x IH]; [reflexivity |].
  simpl. now rewrite Ascii.eqb_refl, IH.
Qed.

Lemma contains_startswith (q s : string) :
  startswith s q = true -> contains q s = true.
Proof. intros H. destruct s; simpl; now rewrite H. Qed.

Lemma contains_concat_member (sp x : string) (l : list string) :
  In x l -> contains x (String.concat sp l) = true.
Proof.
  induction l as [| a l IH]; intros Hin; [destruct Hin |].
  destruct l as [| b l].
  - destruct Hin as [-> | []]. simpl.
    rewrite <- (append_nil_r x) at 2.
    apply contains_startswith, startswith_app_self.
  - change (String.concat sp (a :: b :: l))
      with (a ++ sp ++ String.concat sp (b :: l)).
    destruct Hin as [-> | Hin].
    + apply contains_startswith, startswith_app_self.
    + now apply contains_app_right, contains_app_right, IH.
Qed.

Lemma concat_length_member (sp x : string) (l : list string) :
  In x l -> String.length x <= String.length (String.concat sp l).
Proof.
  induction l as [| a l IH]; intros Hin; [destruct Hin |].
  destruct l as [| b l].
  - destruct Hin as [-> | []]. simpl. lia.
  - change (String.concat sp (a :: b :: l))
      with (a ++ sp ++ String.concat sp (b :: l)).
    rewrite !length_append.
    destruct Hin as [-> | Hin]; [lia |].
    specialize (IH Hin). lia.
Qed.

Lemma after_first_line_length (s : string) :
  String.length (after_first_line s) <= String.length s.
Proof.
  induction s as [| c s IH]; simpl; [lia |].
  destruct (Ascii.eqb c "010"%char); simpl; lia.
Qed.

Lemma report_body (cwd : string) (fs : node) (now : datetime)
      (start_path : string) :
  after_first_line (collect_code cwd fs now start_path) =
  nl ++ String.concat nl
          (("Project structure and contents:" ++ nl)
             :: (rule ++ nl ++ nl)
             :: flat_map (segments_of cwd start_path)
                         (opened_files start_path fs)).
Proof.
  rewrite collect_code_lines.
  apply after_first_line_app, timestamp_line_clean.
Qed.

(** What a readable earlier report at the root does to the new one. *)
Lemma previous_report_inside (cwd start_path : string) (fs : node)
      (now : datetime) (previous : string) :
  isabs start_path = true ->
  in_excluded_path start_path = false ->
  valid_tree fs = true ->
  resolve fs [output_file] = Some (File (ReadOk previous)) ->
  contains previous (collect_code cwd fs now start_path) = true
  /\ String.length previous <
     String.length (after_first_line (collect_code cwd fs now start_path)).
Proof.
  intros Habs Hexcl Hv Hres.
  destruct (resolve_snoc_file [] fs output_file _ Hres) as (here & Hdir & Hfile).
  pose proof (opened_files_complete start_path fs [] here output_file
                Hdir (Forall_nil _) Hexcl (lookup_file_name _ _ _ Hfile) eq_refl)
    as Hin.
  assert (Hseg : In previous
                    (flat_map (segments_of cwd start_path)
                              (opened_files start_path fs))).
  { apply in_flat_map. eexists. split; [exact Hin |].
    unfold segments_of, o_read, open_read. cbn [o_file o_here].
    rewrite Hfile. unfold block. simpl. tauto. }
  assert (Hmem : In previous
                    (("Project structure and contents:" ++ nl)
                       :: (rule ++ nl ++ nl)
                       :: flat_map (segments_of cwd start_path)
                                   (opened_files start_path fs)))
    by (right; right; exact Hseg).
  split.
  - rewrite collect_code_lines.
    apply contains_app_right, contains_app_right, contains_app_right.
    now apply contains_concat_member.
  - rewrite report_body, length_append.
    change (String.length nl) with 1.
    pose proof (concat_length_member nl _ _ Hmem). lia.
Qed.

(** X4: a run in a directory that already holds a readable
    project_code_consolidated.txt reads it before overwriting it: the
    new report contains the old text whole, and even without its own
    timestamp line it is strictly longer than the old file.  So reports
    written in place grow with every run, and the body of a rerun never
    equals the body of the report it found. *)
Theorem rerun_report_outgrows_previous :
  forall (w : world) (current_dir previous : string),
    getcwd w = Returned current_dir ->
    isabs current_dir = true ->
    in_excluded_path current_dir = false ->
    valid_tree (tree w) = true ->
    resolve (tree w) [output_file] = Some (File (ReadOk previous)) ->
    write_error w = None ->
    exists report,
      main w = Completed (output_file, report)
                         ("Code has been consolidated into " ++ output_file ++ nl)
      /\ contains previous report = true
      /\ String.length previous < String.length (after_first_line report)
      /\ after_first_line report <> after_first_line previous.
Proof.
  intros w current_dir previous Hcwd Habs Hexcl Hv Hres Hw.
  exists (collect_code current_dir (tree w) (clock w) current_dir).
  destruct (previous_report_inside current_dir current_dir (tree w) (clock w)
              previous Habs Hexcl Hv Hres) as [Hc Hl].
  split; [unfold main; now rewrite Hcwd, Hw |].
  split; [exact Hc |]. split; [exact Hl |].
  intros E. rewrite E in Hl.
  pose proof (after_first_line_length previous). lia.
Qed.

Lemma rerun_report_outgrows_previous_witness :
  exists report,
    main rerun_world =
    Completed (output_file, report)
              ("Code has been consolidated into " ++ output_file ++ nl)
    /\ contains "old report" report = true
    /\ String.length "old report" < String.length (after_first_line report)
    /\ after_first_line report <> after_first_line "old report".
Proof.
  apply (rerun_report_outgrows_previous rerun_world "/home/u/proj" "old report");
    reflexivity.
Defined.

(** ** The header path leads back to the file *)

Lemma concat_cons_tail (sp a : string) (rest : list string) :
  String.concat sp (a :: rest) =
  a ++ match rest with
       | [] => ""
       | _ :: _ => sp ++ String.concat sp rest
       end.
Proof. destruct rest; simpl; [now rewrite append_nil_r | reflexivity]. Qed.

Lemma join_head_valid (a n tail : string) :
  n <> "" -> mentions sep_char n = false ->
  join a (n ++ tail) = join a n ++ tail.
Proof.
  intros Hne Hclean. unfold join.
  rewrite (startswith_sep_clean n Hclean).
  assert (H : startswith (n ++ tail) sep = false).
  { destruct n as [| c r]; [congruence |].
    simpl in Hclean. apply orb_false_iff in Hclean as [Hc _].
    unfold sep. simpl. rewrite andb_true_r.
    rewrite Ascii.eqb_sym. exact Hc. }
  rewrite H.
  destruct (String.eqb a "" || endswith a sep); now rewrite !append_assoc.
Qed.

Lemma join_valid_no_trailing_sep (a n : string) :
  n <> "" -> mentions sep_char n = false -> endswith (join a n) sep = false.
Proof.
  intros Hne Hclean. rewrite join_valid by assumption.
  destruct (String.eqb a "" || endswith a sep).
  - now apply endswith_sep_app.
  - rewrite <- append_assoc. now apply endswith_sep_app.
Qed.

Lemma path_of_names (start_path : string) (names : list string) :
  start_path <> "" ->
  names <> [] ->
  Forall (fun d => valid_name d = true) names ->
  path_of start_path names = join start_path (String.concat sep names).
Proof.
  intros Hs Hne Hv. destruct names as [| n rest]; [congruence |].
  inversion Hv as [| ? ? Hn Hrest]; subst.
  pose proof (valid_name_inv n Hn) as (H1 & H2 & _).
  unfold path_of. cbn [fold_left].
  rewrite fold_join_concat; try assumption.
  - rewrite !concat_cons_tail. symmetry. now apply join_head_valid.
  - now apply join_nonempty.
  - now apply join_valid_no_trailing_sep.
Qed.

(** X5: for an absolute start and a well-formed tree, joining the start
    path with the relative path printed in a header (or an error line)
    gives back the very path the loop opened: [relpath] undoes [join]
    on every path the walk builds. *)
Theorem header_path_locates_file :
  forall (cwd start_path : string) (fs : node) (o : opened),
    isabs start_path = true ->
    valid_tree fs = true ->
    In o (opened_files start_path fs) ->
    join start_path (relpath cwd (join (o_root o) (o_file o)) start_path) =
    join (o_root o) (o_file o).
Proof.
  intros cwd start_path fs o Habs Hv Ho.
  pose proof (opened_relative cwd start_path fs o Habs Hv Ho) as Hrel.
  pose proof (opened_names_valid start_path fs o Hv Ho) as Hnames.
  apply opened_files_sound in Ho as (_ & Hroot & _).
  unfold o_relative, o_path in Hrel. rewrite Hrel, Hroot, <- path_of_snoc.
  symmetry. apply path_of_names.
  - apply isabs_iff in Habs as [r ->]. discriminate.
  - now destruct (o_chain o).
  - exact Hnames.
Qed.

Lemma header_path_locates_file_witness :
  join "/home/u/proj" "src/main.txt" = join "/home/u/proj/src" "main.txt".
Proof.
  apply (header_path_locates_file "/home/u/proj" "/home/u/proj" example_tree
           {| o_root := "/home/u/proj/src"; o_chain := ["src"];
              o_here := [ ("main.txt", File (ReadOk "hello")) ];
              o_file := "main.txt" |} eq_refl eq_refl).
  vm_compute. now left.
Defined.

(** ** Contents are copied as they are *)

Lemma ltb_asym (a b : string) : String.ltb a b = true -> String.ltb b a = false.
Proof.
  unfold String.ltb. rewrite (String.compare_antisym b a).
  destruct (String.compare a b); simpl; congruence.
Qed.

Lemma ltb_neq (a b : string) : String.ltb a b = true -> String.eqb a b = false.
Proof.
  intros H. apply String.eqb_neq. intros ->.
  pose proof (ltb_asym b b H). congruence.
Qed.

Lemma relpath_at_root (cwd start_path f : string) :
  isabs start_path = true -> valid_name f = true ->
  relpath cwd (join start_path f) start_path = f.
Proof.
  intros Habs Hf.
  exact (relpath_chain cwd start_path [] f Habs (Forall_nil _) Hf).
Qed.

Lemma one_file_segments (cwd start_path : string) (now : datetime)
      (f c : string) :
  isabs start_path = true -> in_excluded_path start_path = false ->
  valid_name f = true -> should_skip_file f = false ->
  collect_segments cwd (Dir [ (f, File (ReadOk c)) ]) now start_path =
  app (preamble now) (block f c).
Proof.
  intros Habs Hexcl Hf Hkeep.
  rewrite collect_segments_unfold. f_equal.
  unfold opened_files. rewrite walk_yields_Dir.
  cbn [dir_names file_names filter map snd fst is_dir negb flat_map app].
  unfold opened_in. cbn [v_root v_here v_chain]. rewrite Hexcl.
  cbn [file_names filter map snd fst is_dir negb].
  change (sorted [f]) with [f].
  cbn [filter]. unfold keep_file. rewrite Hkeep.
  cbn [negb map]. rewrite ?app_nil_r. cbn [flat_map]. rewrite ?app_nil_r.
  unfold segments_of, o_read, o_relative, o_path, open_read.
  cbn [o_root o_file o_here lookup].
  rewrite String.eqb_refl, (relpath_at_root cwd start_path f Habs Hf).
  reflexivity.
Qed.

Lemma two_file_segments (cwd start_path : string) (now : datetime)
      (f1 f2 c1 c2 : string) :
  isabs start_path = true -> in_excluded_path start_path = false ->
  valid_name f1 = true -> valid_name f2 = true ->
  should_skip_file f1 = false -> should_skip_file f2 = false ->
  String.ltb f1 f2 = true ->
  collect_segments cwd (Dir [ (f1, File (ReadOk c1)); (f2, File (ReadOk c2)) ])
                   now start_path =
  app (preamble now) (app (block f1 c1) (block f2 c2)).
Proof.
  intros Habs Hexcl Hf1 Hf2 Hk1 Hk2 Hlt.
  rewrite collect_segments_unfold. f_equal.
  unfold opened_files. rewrite walk_yields_Dir.
  cbn [dir_names file_names filter map snd fst is_dir negb flat_map app].
  unfold opened_in. cbn [v_root v_here v_chain]. rewrite Hexcl.
  cbn [file_names filter map snd fst is_dir negb].
  assert (Hs : sorted [f1; f2] = [f1; f2]).
  { unfold sorted. cbn [fold_left insert_sorted].
    now rewrite (ltb_asym f1 f2 Hlt). }
  rewrite Hs. cbn [filter]. unfold keep_file. rewrite Hk1, Hk2.
  cbn [negb map]. rewrite ?app_nil_r. cbn [flat_map]. rewrite ?app_nil_r.
  unfold segments_of, o_read, o_relative, o_path, open_read.
  cbn [o_root o_file o_here lookup].
  rewrite !String.eqb_refl, (ltb_neq f1 f2 Hlt).
  rewrite (relpath_at_root cwd start_path f1 Habs Hf1).
  rewrite (relpath_at_root cwd start_path f2 Habs Hf2).
  reflexivity.
Qed.

(** X6: file contents are joined into the report without any escaping,
    so the report does not determine the tree: a directory holding two
    files gives, character for character, the same report as a
    directory holding only the first file with a content that ends in
    the text of a block for the second, although the two buffers differ
    (eight file segments against four). *)
Theorem contents_are_not_escaped :
  forall (cwd start_path : string) (now : datetime) (f1 f2 c1 c2 : string),
    isabs start_path = true ->
    in_excluded_path start_path = false ->
    valid_name f1 = true -> valid_name f2 = true ->
    should_skip_file f1 = false -> should_skip_file f2 = false ->
    String.ltb f1 f2 = true ->
    collect_code cwd (Dir [ (f1, File (ReadOk c1)); (f2, File (ReadOk c2)) ])
                 now start_path =
    collect_code cwd
      (Dir [ (f1, File (ReadOk (c1 ++ nl ++ nl ++ rule ++ nl ++ nl ++ nl
                                  ++ "File: " ++ f2 ++ nl ++ rule ++ nl ++ c2))) ])
      now start_path
    /\ List.length
         (collect_segments cwd
            (Dir [ (f1, File (ReadOk c1)); (f2, File (ReadOk c2)) ])
            now start_path) = 11
    /\ List.length
         (collect_segments cwd
            (Dir [ (f1, File (ReadOk (c1 ++ nl ++ nl ++ rule ++ nl ++ nl ++ nl
                                        ++ "File: " ++ f2 ++ nl ++ rule ++ nl ++ c2))) ])
            now start_path) = 7.
Proof.
  intros cwd start_path now f1 f2 c1 c2 Habs Hexcl Hf1 Hf2 Hk1 Hk2 Hlt.
  unfold collect_code.
  rewrite (two_file_segments cwd start_path now f1 f2 c1 c2) by assumption.
  rewrite one_file_segments by assumption.
  split; [| split; reflexivity].
  unfold preamble, block. cbn [app String.concat].
  now rewrite !append_assoc.
Qed.

Lemma contents_are_not_escaped_witness :
  collect_code "/home/u/proj"
    (Dir [ ("a.txt", File (ReadOk "A")); ("b.txt", File (ReadOk "B")) ])
    example_clock "/home/u/proj" =
  collect_code "/home/u/proj"
    (Dir [ ("a.txt", File (ReadOk ("A" ++ nl ++ nl ++ rule ++ nl ++ nl ++ nl
                                     ++ "File: " ++ "b.txt" ++ nl ++ rule ++ nl ++ "B"))) ])
    example_clock "/home/u/proj".
Proof.
  apply (contents_are_not_escaped "/home/u/proj" "/home/u/proj" example_clock
           "a.txt" "b.txt" "A" "B"); reflexivity.
Defined.

(** ** Reports without files *)

Lemma only_directories_Dir (entries : list (string * node)) :
  only_directories (Dir entries) =
  forallb (fun e => only_directories (snd e)) entries.
Proof.
  induction entries as [| [name child] es IH]; [reflexivity |].
  simpl in *. now rewrite IH.
Qed.

Lemma only_directories_resolve (chain : list string) :
  forall n n',
    only_directories n = true -> resolve n chain = Some n' ->
    only_directories n' = true.
Proof.
  induction chain as [| d chain IH]; intros n n' Hn Hr; simpl in Hr.
  - now injection Hr as <-.
  - destruct n as [| entries |]; try discriminate.
    destruct (lookup d entries) as [child |] eqn:E; [| discriminate].
    apply (IH child n'); [| exact Hr].
    rewrite only_directories_Dir, forallb_forall in Hn.
    apply (Hn (d, child)). now apply lookup_In.
Qed.

Lemma only_directories_no_files (here : list (string * node)) :
  only_directories (Dir here) = true -> file_names here = [].
Proof.
  rewrite only_directories_Dir. unfold file_names.
  induction here as [| [name child] es IH]; simpl; [reflexivity |].
  intros H. apply andb_true_iff in H as [Hc Hes].
  destruct child; [discriminate | |]; simpl; now apply IH.
Qed.

Lemma segments_of_length (cwd start_path : string) (o : opened) :
  List.length (segments_of cwd start_path o) = weight o.
Proof. unfold segments_of, weight. now destruct (o_read o). Qed.

Lemma flat_map_length_sum {A B : Type} (f : A -> list B) (l : list A) :
  List.length (flat_map f l) = list_sum (map (fun x => List.length (f x)) l).
Proof.
  induction l as [| a l IH]; simpl; [reflexivity |].
  now rewrite length_app, IH.
Qed.

(** X7: the buffer holds the three preamble segments and then four
    segments for every file read and one for every file whose read
    failed; so the report is the bare preamble exactly when no file was
    opened, which is the case for an empty root and for any tree that
    holds nothing but directories, listable or not. *)
Theorem bare_preamble_iff_nothing_opened :
  forall (cwd : string) (fs : node) (now : datetime) (start_path : string),
    List.length (collect_segments cwd fs now start_path) =
    3 + list_sum (map weight (opened_files start_path fs))
    /\ (collect_segments cwd fs now start_path = preamble now <->
        opened_files start_path fs = [])
    /\ (only_directories fs = true ->
        collect_segments cwd fs now start_path = preamble now).
Proof.
  intros cwd fs now start_path.
  assert (Hlen : List.length (collect_segments cwd fs now start_path) =
                 3 + list_sum (map weight (opened_files start_path fs))).
  { rewrite collect_segments_unfold, length_app, flat_map_length_sum.
    f_equal. f_equal. apply map_ext. intros o. apply segments_of_length. }
  assert (Hnil : opened_files start_path fs = [] ->
                 collect_segments cwd fs now start_path = preamble now).
  { intros H. rewrite collect_segments_unfold, H. apply app_nil_r. }
  split; [exact Hlen |]. split; [split; [| exact Hnil] |].
  - intros H. rewrite H in Hlen.
    destruct (opened_files start_path fs) as [| o l]; [reflexivity |].
    exfalso. simpl in Hlen. unfold weight at 1 in Hlen.
    destruct (o_read o); lia.
  - intros Hdirs. apply Hnil. unfold opened_files. apply flat_map_nil.
    intros v Hv. apply walk_yields_sound in Hv as (rest & _ & _ & _ & Hres).
    pose proof (only_directories_resolve _ _ _ Hdirs Hres) as Hhere.
    unfold opened_in. destruct (in_excluded_path (v_root v)); [reflexivity |].
    now rewrite (only_directories_no_files _ Hhere).
Qed.

Lemma bare_preamble_iff_nothing_opened_witness :
  collect_segments "/home/u/proj" hollow_tree example_clock "/home/u/proj" =
  preamble example_clock
  /\ collect_segments "/home/u/proj" (Dir []) example_clock "/home/u/proj" =
     preamble example_clock.
Proof.
  split.
  - apply (bare_preamble_iff_nothing_opened
             "/home/u/proj" hollow_tree example_clock "/home/u/proj").
    reflexivity.
  - apply (bare_preamble_iff_nothing_opened
             "/home/u/proj" (Dir []) example_clock "/home/u/proj").
    reflexivity.
Defined.

(** ** Directories that cannot be listed *)

Lemma hush_Dir (entries : list (string * node)) :
  hush (Dir entries) = Dir (hush_listing entries).
Proof.
  simpl. f_equal. unfold hush_listing.
  induction entries as [| [name child] es IH]; simpl; [reflexivity |].
  now rewrite IH.
Qed.

Lemma is_dir_hush (n : node) : is_dir (hush n) = is_dir n.
Proof. destruct n; reflexivity. Qed.

Lemma dir_names_hush (here : list (string * node)) :
  dir_names (hush_listing here) = dir_names here.
Proof.
  unfold dir_names, hush_listing.
  induction here as [| [name child] es IH]; simpl; [reflexivity |].
  rewrite is_dir_hush. destruct (is_dir child); simpl; now rewrite IH.
Qed.

Lemma file_names_hush (here : list (string * node)) :
  file_names (hush_listing here) = file_names here.
Proof.
  unfold file_names, hush_listing.
  induction here as [| [name child] es IH]; simpl; [reflexivity |].
  rewrite is_dir_hush. destruct (is_dir child); simpl; now rewrite IH.
Qed.

Lemma lookup_hush (here : list (string * node)) (d : string) :
  lookup d (hush_listing here) = option_map hush (lookup d here).
Proof.
  unfold hush_listing.
  induction here as [| [name child] es IH]; simpl; [reflexivity |].
  destruct (String.eqb name d); [reflexivity | exact IH].
Qed.

Lemma opened_in_hush (top : string) (chain : list string)
      (here : list (string * node)) :
  opened_in {| v_root := top; v_chain := chain; v_here := hush_listing here |} =
  map hush_opened
      (opened_in {| v_root := top; v_chain := chain; v_here := here |}).
Proof.
  unfold opened_in. cbn [v_root v_chain v_here].
  destruct (in_excluded_path top); [reflexivity |].
  now rewrite file_names_hush, map_map.
Qed.

Lemma opened_hush (n : node) :
  forall top chain,
    flat_map opened_in (walk_yields top chain (hush n)) =
    map hush_opened (flat_map opened_in (walk_yields top chain n)).
Proof.
  induction n as [r | | entries IH] using node_ind_nested; intros top chain.
  - reflexivity.
  - simpl. unfold opened_in. cbn [v_root v_here].
    destruct (in_excluded_path top); reflexivity.
  - rewrite hush_Dir, !walk_yields_Dir, dir_names_hush.
    cbn [flat_map]. rewrite map_app, opened_in_hush. f_equal.
    rewrite !flat_map_flat_map, map_flat_map.
    apply flat_map_ext_all. intros d. rewrite lookup_hush.
    destruct (lookup d entries) as [child |] eqn:E; [| reflexivity].
    simpl option_map. cbv iota. rewrite Forall_forall in IH.
    apply (IH _ (lookup_In _ _ _ E)).
Qed.

Lemma segments_of_hush (cwd start_path : string) (o : opened) :
  segments_of cwd start_path (hush_opened o) = segments_of cwd start_path o.
Proof.
  unfold segments_of, o_read, o_relative, o_path, open_read.
  cbn [hush_opened o_root o_file o_here]. rewrite lookup_hush.
  destruct (lookup (o_file o) (o_here o)) as [[r | es |] |]; reflexivity.
Qed.

(** X8: a subdirectory that cannot be listed leaves no trace in the
    report, neither a block nor an error line: the buffer is the one the
    same tree gives with every such directory empty.  (A file that
    cannot be read does leave an error line.) *)
Theorem unlistable_directories_leave_no_trace :
  forall (cwd : string) (fs : node) (now : datetime) (start_path : string),
    collect_segments cwd (hush fs) now start_path =
    collect_segments cwd fs now start_path.
Proof.
  intros cwd fs now start_path.
  rewrite !collect_segments_unfold. f_equal.
  unfold opened_files. rewrite opened_hush, flat_map_map.
  apply flat_map_ext_all. intros o. apply segments_of_hush.
Qed.

Lemma unlistable_directories_leave_no_trace_witness :
  collect_segments "/home/u/proj" locked_tree example_clock "/home/u/proj" =
  app (preamble example_clock) (block "main.txt" "m").
Proof.
  rewrite <- (unlistable_directories_leave_no_trace
                "/home/u/proj" locked_tree example_clock "/home/u/proj").
  reflexivity.
Defined.

(** ** Moving the project *)

Lemma unique_NoDup (names : list string) :
  unique names = true -> NoDup names.
Proof.
  induction names as [| x rest IH]; simpl; intros H; [constructor |].
  apply andb_true_iff in H as [Hx Hrest].
  apply negb_true_iff, str_in_false_iff in Hx.
  constructor; [exact Hx | now apply IH].
Qed.

Lemma distinct_names_Dir (entries : list (string * node)) :
  distinct_names (Dir entries) =
  unique (map fst entries)
  && forallb (fun e => distinct_names (snd e)) entries.
Proof.
  simpl. f_equal.
  induction entries as [| [name child] es IH]; [reflexivity |].
  simpl. now rewrite IH.
Qed.

Lemma distinct_names_lookup (entries : list (string * node)) (d : string)
      (child : node) :
  distinct_names (Dir entries) = true ->
  lookup d entries = Some child ->
  distinct_names child = true.
Proof.
  rewrite distinct_names_Dir. intros H Hl.
  apply andb_true_iff in H as [_ H]. rewrite forallb_forall in H.
  apply (H (d, child)). now apply lookup_In.
Qed.

Lemma distinct_names_file (entries : list (string * node)) (f : string) :
  distinct_names (Dir entries) = true ->
  In f (file_names entries) ->
  exists r, lookup f entries = Some (File r).
Proof.
  rewrite distinct_names_Dir. intros H Hf.
  apply andb_true_iff in H as [H _]. apply unique_NoDup in H.
  apply file_names_In in Hf as (n & Hin & Hdir).
  destruct n as [r | |]; try discriminate.
  exists r. now apply lookup_NoDup.
Qed.

Lemma flat_map_ext_In {A B : Type} (f g : A -> list B) (l : list A) :
  (forall x, In x l -> f x = g x) -> flat_map f l = flat_map g l.
Proof.
  induction l as [| a l IH]; intros H; simpl; [reflexivity |].
  rewrite (H a) by now left. f_equal. apply IH. intros x Hx. apply H. now right.
Qed.

Lemma flat_map_twice {A B C D : Type} (g : C -> list D) (h : B -> list C)
      (k : A -> list B) (l : list A) :
  flat_map g (flat_map h (flat_map k l)) =
  flat_map (fun x => flat_map g (flat_map h (k x))) l.
Proof.
  induction l as [| a l IH]; simpl; [reflexivity |].
  now rewrite !flat_map_app, IH.
Qed.

Lemma relocated_subtree (cwd1 cwd2 start1 start2 : string) (n : node) :
  isabs start1 = true -> isabs start2 = true ->
  in_excluded_path start1 = false -> in_excluded_path start2 = false ->
  forall chain,
    Forall (fun d => valid_name d = true) chain ->
    valid_tree n = true ->
    distinct_names n = true ->
    flat_map (segments_of cwd1 start1)
             (flat_map opened_in (walk_yields (path_of start1 chain) chain n)) =
    flat_map (segments_of cwd2 start2)
             (flat_map opened_in (walk_yields (path_of start2 chain) chain n)).
Proof.
  intros Habs1 Habs2 Hex1 Hex2.
  induction n as [r | | entries IH] using node_ind_nested;
    intros chain Hchain Hv Hd; try reflexivity.
  rewrite !walk_yields_Dir. cbn [flat_map]. rewrite !flat_map_app. f_equal.
  - unfold opened_in. cbn [v_root v_chain v_here].
    rewrite !in_excluded_path_of, Hex1, Hex2 by assumption. cbn [orb].
    destruct (existsb (fun d => str_in d path_exclusions) chain);
      [reflexivity |].
    rewrite !flat_map_map. apply flat_map_ext_In. intros f Hf.
    apply filter_In in Hf as [Hf _]. apply (proj1 (sorted_In _ _)) in Hf.
    pose proof (valid_tree_file_name _ _ Hv Hf) as Hname.
    destruct (distinct_names_file _ _ Hd Hf) as [r Hr].
    unfold segments_of, o_read, o_relative, o_path, open_read.
    cbn [o_root o_file o_here]. rewrite Hr.
    now rewrite !relpath_chain by assumption.
  - rewrite !flat_map_twice. apply flat_map_ext_In. intros d _.
    destruct (lookup d entries) as [child |] eqn:E; [| reflexivity].
    destruct (valid_tree_lookup _ _ _ Hv E) as [Hname Hchild].
    rewrite <- !path_of_snoc. rewrite Forall_forall in IH.
    apply (IH _ (lookup_In _ _ _ E)).
    + apply Forall_app. split; [exact Hchain | now constructor].
    + exact Hchild.
    + now apply (distinct_names_lookup entries d).
Qed.

(** The message of a refused [open] names the absolute path, so an
    error line for such a file tells where the project is. *)
Lemma refused_file_names_its_location :
  collect_code "/a" (mount "/a" secret_disk) example_clock "/a" =
  String.concat nl
    (app (preamble example_clock)
         (app (block "main.txt" "m")
              (error_line "secret.txt"
                 "[Errno 13] Permission denied: '/a/secret.txt'")))
  /\ contains "/a/secret.txt"
       (collect_code "/b" (mount "/b" secret_disk) example_clock "/b") = false.
Proof. split; reflexivity. Qed.

(** X9: unless a file refuses to be opened, the report does not say
    where the project is.  For a disk without such a file, whose mounted
    tree is well formed with distinct names in every directory, two runs
    from absolute roots that the path-level check does not skip give the
    same report, character for character, for the same clock reading:
    headers and error lines carry relative paths only, and the message
    of a decoding error names a byte position, not a path. *)
Theorem report_independent_of_location :
  forall (cwd1 cwd2 start1 start2 : string) (d : disk) (now : datetime),
    isabs start1 = true -> isabs start2 = true ->
    in_excluded_path start1 = false -> in_excluded_path start2 = false ->
    valid_tree (mount start1 d) = true ->
    distinct_names (mount start1 d) = true ->
    never_denied d = true ->
    collect_code cwd1 (mount start1 d) now start1 =
    collect_code cwd2 (mount start2 d) now start2.
Proof.
  intros cwd1 cwd2 start1 start2 d now Habs1 Habs2 Hex1 Hex2 Hv Hd Hn.
  rewrite <- (mount_never_denied d start1 start2 Hn).
  unfold collect_code. rewrite !collect_segments_unfold. do 2 f_equal.
  unfold opened_files.
  exact (relocated_subtree cwd1 cwd2 start1 start2 (mount start1 d)
           Habs1 Habs2 Hex1 Hex2 [] (Forall_nil _) Hv Hd).
Qed.

Lemma report_independent_of_location_witness :
  collect_code "/home/u/proj" (mount "/home/u/proj" flaky_disk) example_clock
               "/home/u/proj" =
  collect_code "/" (mount "/srv/checkout/target" flaky_disk) example_clock
               "/srv/checkout/target".
Proof.
  apply report_independent_of_location; reflexivity.
Defined.

(** ** The order of the walk *)

(** X10: the walk only appends.  Whatever the buffer holds when a
    directory is entered stays in front; the directory then adds the
    segments of its own files and, after them, the segments of each
    kept subdirectory in listing order, each subtree in one piece. *)
Theorem walk_appends_in_preorder :
  forall (cwd start_path top : string) (n : node) (output : list string),
    os_walk (walk_body cwd start_path) top n output =
    app output (os_walk (walk_body cwd start_path) top n [])
    /\ (forall entries,
          os_walk (walk_body cwd start_path) top (Dir entries) [] =
          app (if in_excluded_path top then []
               else fold_left (visit_file cwd start_path top entries)
                              (sorted (file_names entries)) [])
              (flat_map
                 (fun d =>
                    match lookup d entries with
                    | Some child =>
                        os_walk (walk_body cwd start_path) (join top d) child []
                    | None => []
                    end)
                 (filter (fun d => negb (should_skip_directory d))
                         (dir_names entries)))).
Proof.
  intros cwd start_path top n output. split.
  - now rewrite (os_walk_unfold cwd start_path n top [] output),
                (os_walk_unfold cwd start_path n top [] []).
  - intros entries.
    rewrite (os_walk_unfold cwd start_path (Dir entries) top [] []).
    rewrite walk_yields_Dir. cbn [app flat_map]. rewrite flat_map_app. f_equal.
    + unfold opened_in. cbn [v_root v_chain v_here].
      destruct (in_excluded_path top); [reflexivity |].
      now rewrite (visit_files_unfold cwd start_path top [] entries).
    + rewrite flat_map_twice. apply flat_map_ext_all. intros d.
      destruct (lookup d entries) as [child |]; [| reflexivity].
      now rewrite (os_walk_unfold cwd start_path child (join top d)
                     (app [] [d]) []).
Qed.
